(** * Replica.Send: the request-execution core of a range

    A shallow embedding of [pkg/storage/replica_send.go]: batch validation,
    the request dispatcher, the concurrency retry loop with its four
    conflict handlers, and the admin executor.

    The code is stateful and talks to collaborators that live in other
    packages (latch manager, intent resolver, transaction wait queue,
    recovery manager, stopper).  It is embedded in a small state monad:
    the state is the collaborators' own state together with a trace of the
    calls the claims speak about; a computation either returns or stops
    (log.Fatalf, a Go run-time panic, or the loop's fuel running out). *)

From Stdlib Require Import ZArith List String Bool Lia.
Import ListNotations.

Local Open Scope string_scope.
Local Open Scope list_scope.
Local Open Scope Z_scope.

(* ------------------------------------------------------------------ *)
(** ** util/hlc *)

Module hlc.

(** hlc.Timestamp: WallTime is an int64, Logical an int32. *)
Record Timestamp : Type := { WallTime : Z; Logical : Z }.

(** The zero value [hlc.Timestamp{}]. *)
Definition zero : Timestamp := {| WallTime := 0; Logical := 0 |}.

(** Go's [==] on the struct: field by field. *)
Definition eqb (t s : Timestamp) : bool :=
  (WallTime t =? WallTime s) && (Logical t =? Logical s).

(** Modelled from the spec: package hlc lies outside pkg/storage;
    [Less] is the order on (WallTime, Logical) that "advance forward to at
    least" refers to. *)
Definition Less (t s : Timestamp) : bool :=
  (WallTime t <? WallTime s)
  || ((WallTime t =? WallTime s) && (Logical t <? Logical s)).

(** Modelled from the spec: package hlc lies outside pkg/storage;
    [Forward] advances the receiver to [s] when [s] is later ("advance the
    header's timestamp forward to at least the observed timestamp"). *)
Definition Forward (t s : Timestamp) : Timestamp :=
  if Less t s then s else t.

(** Modelled from the spec: package hlc lies outside pkg/storage;
    [Backward] is the mirror of [Forward]: it lowers the receiver to [s]
    when [s] is earlier. *)
Definition Backward (t s : Timestamp) : Timestamp :=
  if Less s t then s else t.

End hlc.

(* ------------------------------------------------------------------ *)
(** ** roachpb: the messages the replica exchanges *)

Module roachpb.

Definition NodeID := Z.
Definition RangeID := Z.

Inductive ReadConsistencyType : Type :=
| CONSISTENT
| READ_UNCOMMITTED
| INCONSISTENT.

Definition ReadConsistencyType_eqb (a b : ReadConsistencyType) : bool :=
  match a, b with
  | CONSISTENT, CONSISTENT
  | READ_UNCOMMITTED, READ_UNCOMMITTED
  | INCONSISTENT, INCONSISTENT => true
  | _, _ => false
  end.

Inductive TransactionStatus : Type :=
| PENDING
| STAGING
| COMMITTED
| ABORTED.

Record TxnMeta : Type := {
  ID : Z;
  WriteTimestamp : hlc.Timestamp
}.

Record ObservedTimestamp : Type := {
  ObservedTimestamp_NodeID : NodeID;
  ObservedTimestamp_Timestamp : hlc.Timestamp
}.

Record Transaction : Type := {
  Transaction_TxnMeta : TxnMeta;
  Status : TransactionStatus;
  ObservedTimestamps : list ObservedTimestamp
}.

(** Modelled from the spec: package roachpb lies outside pkg/storage;
    the observed timestamp is "a per-node clock reading recorded by a
    transaction", looked up by node. *)
Fixpoint lookupObserved (l : list ObservedTimestamp) (n : NodeID)
  : option hlc.Timestamp :=
  match l with
  | [] => None
  | o :: l' =>
      if ObservedTimestamp_NodeID o =? n
      then Some (ObservedTimestamp_Timestamp o)
      else lookupObserved l' n
  end.

Definition GetObservedTimestamp (txn : Transaction) (n : NodeID)
  : option hlc.Timestamp :=
  lookupObserved (ObservedTimestamps txn) n.

(** [Clone] is a deep copy; values are immutable here. *)
Definition Clone (txn : Transaction) : Transaction := txn.

Inductive PushTxnType : Type :=
| PUSH_TIMESTAMP
| PUSH_ABORT
| PUSH_TOUCH.

Record PushTxnRequest : Type := {
  PushTxnRequest_PusheeTxn : TxnMeta;
  PushType : PushTxnType;
  Force : bool
}.

(** The request kinds this file tells apart: the administrative ones of
    [executeAdminBatch], PushTxn, and every other method. *)
Inductive Request : Type :=
| AdminSplitRequest
| AdminUnsplitRequest
| AdminMergeRequest
| AdminTransferLeaseRequest
| AdminChangeReplicasRequest
| AdminRelocateRangeRequest
| CheckConsistencyRequest
| ImportRequest
| AdminScatterRequest
| PushTxn (p : PushTxnRequest)
| OtherRequest (method : string).

Record ReplicaDescriptor : Type := {
  ReplicaDescriptor_NodeID : NodeID
}.

Record Header : Type := {
  Timestamp : hlc.Timestamp;
  Header_Replica : ReplicaDescriptor;
  Txn : option Transaction;
  ReadConsistency : ReadConsistencyType;
  GatewayNodeID : NodeID;
  ReturnRangeInfo : bool
}.

(** BatchRequest embeds its Header: [ba.Txn] is [Txn (BatchRequest_Header ba)]. *)
Record BatchRequest : Type := {
  BatchRequest_Header : Header;
  Requests : list Request
}.

(** A response of the union: its kind, the transaction of its header and
    whether range info was attached to it. *)
Record Response : Type := {
  Response_Method : string;
  Response_Txn : option Transaction;
  RangeInfos : bool
}.

Definition emptyResponse (method : string) : Response :=
  {| Response_Method := method; Response_Txn := None; RangeInfos := false |}.

Record BatchResponse : Type := {
  BatchResponse_Txn : option Transaction;
  Responses : list Response
}.

(** *** Errors *)

Record WriteIntentError : Type := { Intents : list TxnMeta }.
Record TransactionPushError : Type := { PusheeTxn : Transaction }.
Record IndeterminateCommitError : Type := { StagingTxn : Transaction }.

(** The structured error details: the four conflict kinds of the retry
    loop, the two further kinds the handlers name, and the rest. *)
Inductive ErrorDetail : Type :=
| Detail_WriteIntent (t : WriteIntentError)
| Detail_TransactionPush (t : TransactionPushError)
| Detail_IndeterminateCommit (t : IndeterminateCommitError)
| Detail_MergeInProgress
| Detail_AmbiguousResult (msg : string)
| Detail_NodeUnavailable
| Detail_Other (name : string).

(** Values of Go's [error] interface: a structured roachpb error, a plain
    message ([errors.New], [errors.Errorf]) or a wrapped error
    ([errors.Wrap]). *)
Inductive error : Type :=
| Structured (d : ErrorDetail)
| errors_New (msg : string)
| errors_Wrap (cause : error) (msg : string).

(** [errors.Wrap] returns nil on a nil error. *)
Definition Wrap (err : option error) (msg : string) : option error :=
  match err with
  | None => None
  | Some e => Some (errors_Wrap e msg)
  end.

Record ErrPosition : Type := { Index : Z }.

(** Modelled from the spec: roachpb.Error is declared outside
    pkg/storage; it is the "structured error" of the core: the Go error it was
    built from (a closed union over the conflict kinds plus a catch-all)
    and the position of the failing request in the batch. *)
Record Error : Type := {
  GoError : error;
  Error_Index : option ErrPosition
}.

(** [roachpb.NewError]: nil on nil. *)
Definition NewError (err : option error) : option Error :=
  match err with
  | None => None
  | Some e => Some {| GoError := e; Error_Index := None |}
  end.

Definition NewErrorf (msg : string) : option Error :=
  NewError (Some (errors_New msg)).

(** [pErr.GetDetail()]: nil exactly on a nil [*Error]. *)
Definition GetDetail (pErr : option Error) : option error :=
  match pErr with
  | None => None
  | Some e => Some (GoError e)
  end.

(** [pErr.Index = index]. *)
Definition setIndex (pErr : Error) (index : option ErrPosition) : Error :=
  {| GoError := GoError pErr; Error_Index := index |}.

(** The type assertion of [err] to an AmbiguousResultError. *)
Definition isAmbiguousResultError (err : error) : bool :=
  match err with
  | Structured (Detail_AmbiguousResult _) => true
  | _ => false
  end.

(** Modelled from the spec: package roachpb lies outside pkg/storage;
    a batch is a single PushTxn request when it has one request and that
    request is a PushTxn. *)
Definition IsSinglePushTxnRequest (ba : BatchRequest) : bool :=
  match Requests ba with
  | [PushTxn _] => true
  | _ => false
  end.

End roachpb.

Import roachpb.

(* ------------------------------------------------------------------ *)
(** ** Batch validation *)

(** [Replica.checkBatchRequest]: the receiver is not used. *)
Definition checkBatchRequest (ba : BatchRequest) (isReadOnly : bool)
  : option error :=
  if hlc.eqb (Timestamp (BatchRequest_Header ba)) hlc.zero then
    Some (errors_New
            "Replica.checkBatchRequest: batch does not have timestamp assigned")
  else
    let consistent :=
      ReadConsistencyType_eqb (ReadConsistency (BatchRequest_Header ba))
                              CONSISTENT in
    if isReadOnly then
      if negb consistent
         && (match Txn (BatchRequest_Header ba) with
             | Some _ => true
             | None => false
             end)
      then Some (errors_New "cannot allow %v reads within a transaction")
      else None
    else if negb consistent then
      Some (errors_New "%v mode is only available to reads")
    else None.

(* ------------------------------------------------------------------ *)
(** ** Effects: collaborators, trace and the execution monad *)

(** intentresolver.CleanupFunc is a closure; it is named by an identifier and
    run through the intent resolver. *)
Definition CleanupFunc := nat.

(** spanset.SpanSet, spanlatch.Guard, storagepb.LeaseStatus and the merge
    channel are opaque to this file. *)
Inductive SpanSet : Type := SpanSet_of (id : nat).
Inductive Guard : Type := Guard_of (id : nat).
Inductive LeaseStatus : Type := LeaseStatus_of (id : nat).
Inductive MergeCompleteCh : Type := MergeCompleteCh_of (id : nat).

(** What the [select] of the merge wait returns with. *)
Inductive SelectCase : Type :=
| MergeComplete
| CtxDone
| ShouldQuiesce.

(** The calls the properties speak about, in the order they happen. *)
Inductive Event : Type :=
| Ev_log (msg : string)
| Ev_cleanup (c : CleanupFunc) (t : option WriteIntentError)
             (meta : option TxnMeta)
| Ev_ProcessWriteIntentError (cleanup : option CleanupFunc)
| Ev_Enqueue (txn : Transaction)
| Ev_redirectOnOrAcquireLease
| Ev_TestingResponseFilter (ba : BatchRequest) (br : option BatchResponse).

Record World (S : Type) : Type := {
  ext : S;
  trace : list Event
}.
Arguments ext {S} _.
Arguments trace {S} _.

Inductive Abort : Type :=
| Fatal (msg : string)
| Panic (msg : string)
| OutOfFuel.

Inductive Outcome (W A : Type) : Type :=
| Ret (a : A) (w : W)
| Stop (e : Abort).
Arguments Ret {W A} _ _.
Arguments Stop {W A} _.

Definition M (S A : Type) : Type := World S -> Outcome (World S) A.

Definition ret {S A} (a : A) : M S A := fun w => Ret a w.

Definition bind {S A B} (m : M S A) (k : A -> M S B) : M S B :=
  fun w =>
    match m w with
    | Ret a w' => k a w'
    | Stop e => Stop e
    end.

Definition stop {S A} (e : Abort) : M S A := fun _ => Stop e.

(** A collaborator: a function of its own state. *)
Definition Ext (S A : Type) : Type := S -> A * S.

Definition call {S A} (f : Ext S A) : M S A :=
  fun w =>
    let (a, s') := f (ext w) in
    Ret a {| ext := s'; trace := trace w |}.

Definition update {S} (f : S -> S) : M S unit :=
  fun w => Ret tt {| ext := f (ext w); trace := trace w |}.

Definition gets {S A} (f : S -> A) : M S A :=
  fun w => Ret (f (ext w)) w.

Definition emit {S} (ev : Event) : M S unit :=
  fun w => Ret tt {| ext := ext w; trace := trace w ++ [ev] |}.

Declare Scope go_scope.
Delimit Scope go_scope with go.
Notation "x <- c ;; k" := (bind c (fun x => k))
  (at level 61, c at next level, right associativity) : go_scope.
Notation "' pat <- c ;; k" := (bind c (fun x => match x with pat => k end))
  (at level 61, pat pattern, c at next level, right associativity) : go_scope.
Notation "c ;; k" := (bind c (fun _ => k))
  (at level 61, right associativity) : go_scope.
Local Open Scope go_scope.

Definition isSome {A} (o : option A) : bool :=
  match o with
  | Some _ => true
  | None => false
  end.

(** The methods and package functions of roachpb, txnwait and storage that
    the code calls and whose bodies lie elsewhere. *)
Class Helpers : Type := {
  IsFinalized : TransactionStatus -> bool;
  IsReadOnly : BatchRequest -> bool;
  IsWrite : BatchRequest -> bool;
  IsAdmin : BatchRequest -> bool;
  ShouldPushImmediately : PushTxnRequest -> bool;
  maybeStripInFlightWrites : BatchRequest -> BatchRequest + error
}.

Record StoreTestingKnobs (S : Type) : Type := {
  DontPushOnWriteIntentError : bool;
  DontRetryPushTxnFailures : bool;
  DontRecoverIndeterminateCommits : bool;
  TestingRequestFilter : option (BatchRequest -> Ext S (option Error));
  TestingResponseFilter :
    option (BatchRequest -> option BatchResponse -> Ext S (option Error))
}.
Arguments DontPushOnWriteIntentError {S} _.
Arguments DontRetryPushTxnFailures {S} _.
Arguments DontRecoverIndeterminateCommits {S} _.
Arguments TestingRequestFilter {S} _.
Arguments TestingResponseFilter {S} _.

(** batchExecutionFn, without the receiver and the context. *)
Definition batchExecutionFn (S : Type) : Type :=
  BatchRequest -> SpanSet -> Guard ->
  Ext S (option BatchResponse * option Error).

(** The replica as this file sees it: its knobs and the operations of the
    store, the latch manager, the wait queue, the intent resolver, the
    recovery manager, the stopper and the caller's context. *)
Record Replica (S : Type) : Type := {
  Replica_RangeID : RangeID;
  TestingKnobs : StoreTestingKnobs S;
  leaseholderStats_record : option (NodeID -> S -> S);
  maybeInitializeRaftGroup : S -> S;
  maybeBackpressureBatch : BatchRequest -> Ext S (option error);
  executeWriteBatch : batchExecutionFn S;
  executeReadOnlyBatch : batchExecutionFn S;
  collectSpans : BatchRequest -> SpanSet + error;
  recordBatchForLoadBasedSplitting : BatchRequest -> SpanSet -> S -> S;
  ctx_Err : S -> option error;
  maybeWaitForPushee :
    BatchRequest -> Ext S (option BatchResponse * option Error);
  beginCmds : BatchRequest -> SpanSet -> Ext S (Guard + error);
  ProcessWriteIntentError :
    Error -> Request -> Header -> PushTxnType ->
    Ext S (option CleanupFunc * option Error);
  runCleanup :
    CleanupFunc -> option WriteIntentError -> option TxnMeta -> S -> S;
  ResolveIndeterminateCommit :
    IndeterminateCommitError -> Ext S (option error);
  txnWaitQueue_Enqueue : Transaction -> S -> S;
  getMergeCompleteCh : S -> option MergeCompleteCh;
  selectMergeWait : MergeCompleteCh -> Ext S SelectCase;
  redirectOnOrAcquireLease : Ext S (LeaseStatus * option Error);
  checkExecutionCanProceed : BatchRequest -> LeaseStatus -> S -> option error;
  AdminSplit : Ext S (Response * option Error);
  AdminUnsplit : Ext S (Response * option Error);
  AdminMerge : Ext S (Response * option Error);
  AdminTransferLease : Ext S (option error);
  ChangeReplicas : Ext S (Response * option error);
  AdminRelocateRange : Ext S (option error);
  CheckConsistency : Ext S (Response * option Error);
  importCmdFn : Header -> Request -> Ext S (Response * option error);
  adminScatter : Ext S (Response * option error)
}.
Arguments Replica_RangeID {S} _.
Arguments TestingKnobs {S} _.
Arguments leaseholderStats_record {S} _.
Arguments maybeInitializeRaftGroup {S} _.
Arguments maybeBackpressureBatch {S} _.
Arguments executeWriteBatch {S} _.
Arguments executeReadOnlyBatch {S} _.
Arguments collectSpans {S} _.
Arguments recordBatchForLoadBasedSplitting {S} _.
Arguments ctx_Err {S} _.
Arguments maybeWaitForPushee {S} _.
Arguments beginCmds {S} _.
Arguments ProcessWriteIntentError {S} _.
Arguments runCleanup {S} _.
Arguments ResolveIndeterminateCommit {S} _.
Arguments txnWaitQueue_Enqueue {S} _.
Arguments getMergeCompleteCh {S} _.
Arguments selectMergeWait {S} _.
Arguments redirectOnOrAcquireLease {S} _.
Arguments checkExecutionCanProceed {S} _.
Arguments AdminSplit {S} _.
Arguments AdminUnsplit {S} _.
Arguments AdminMerge {S} _.
Arguments AdminTransferLease {S} _.
Arguments ChangeReplicas {S} _.
Arguments AdminRelocateRange {S} _.
Arguments CheckConsistency {S} _.
Arguments importCmdFn {S} _.
Arguments adminScatter {S} _.

(* ------------------------------------------------------------------ *)
(** ** The code of replica_send.go *)

Section ReplicaSend.

Context {S : Type} {helpers : Helpers} (r : Replica S).

Let knobs : StoreTestingKnobs S := TestingKnobs r.

(** [log.Fatalf]: the process exits. *)
Definition log_Fatalf {A} (msg : string) : M S A := stop (Fatal msg).

(** [log.Event] and [log.Eventf]. *)
Definition log_Event (msg : string) : M S unit := emit (Ev_log msg).

(** A call of a cleanup closure. *)
Definition cleanupCall (c : CleanupFunc) (t : option WriteIntentError)
           (meta : option TxnMeta) : M S unit :=
  emit (Ev_cleanup c t meta) ;;
  update (runCleanup r c t meta).

(** [ba.Requests[index.Index].GetInner()] for [index] an [*ErrPosition]:
    a nil pointer or an index outside of the slice panics. *)
Definition requestAt (ba : BatchRequest) (index : option ErrPosition)
  : M S Request :=
  match index with
  | None => stop (Panic "nil pointer dereference")
  | Some pos =>
      if (0 <=? Index pos) && (Index pos <? Z.of_nat (List.length (Requests ba)))
      then match nth_error (Requests ba) (Z.to_nat (Index pos)) with
           | Some args => ret args
           | None => stop (Panic "index out of range")
           end
      else stop (Panic "index out of range")
  end.

(** The copy [h] of [ba.Header] that [handleWriteIntentError] hands to the
    push: with a transaction, the timestamp is forwarded to the observed
    timestamp of the replica's node and the transaction cloned; nothing
    when that observed timestamp is missing. *)
Definition pushHeader (h : Header) : option Header :=
  match Txn h with
  | Some txn =>
      match GetObservedTimestamp
              txn (ReplicaDescriptor_NodeID (Header_Replica h)) with
      | None => None
      | Some obsTS =>
          Some {| Timestamp := hlc.Forward (Timestamp h) obsTS;
                  Header_Replica := Header_Replica h;
                  Txn := Some (Clone txn);
                  ReadConsistency := ReadConsistency h;
                  GatewayNodeID := GatewayNodeID h;
                  ReturnRangeInfo := ReturnRangeInfo h |}
      end
  | None => Some h
  end.

Definition handleWriteIntentError
           (ba : BatchRequest) (pErr : Error) (t : WriteIntentError)
           (cleanup : option CleanupFunc)
  : M S (option CleanupFunc * option Error) :=
  if DontPushOnWriteIntentError knobs then ret (cleanup, Some pErr)
  else
    let pushType := if IsWrite ba then PUSH_ABORT else PUSH_TIMESTAMP in
    let index := Error_Index pErr in
    args <- requestAt ba index ;;
    h <- match pushHeader (BatchRequest_Header ba) with
         | Some h => ret h
         | None => log_Fatalf "missing observed timestamp"
         end ;;
    match cleanup with
    | Some c => cleanupCall c (Some t) None
    | None => ret tt
    end ;;
    ' (cleanup', pErr') <-
      call (ProcessWriteIntentError r pErr args h pushType) ;;
    emit (Ev_ProcessWriteIntentError cleanup') ;;
    match pErr' with
    | Some e =>
        if isAmbiguousResultError (GoError e) then ret (cleanup', None)
        else ret (cleanup', Some (setIndex e index))
    | None => ret (cleanup', None)
    end.

Definition handleTransactionPushError
           (ba : BatchRequest) (pErr : Error) (t : TransactionPushError)
  : M S (option Error) :=
  let dontRetry := DontRetryPushTxnFailures knobs in
  dontRetry <-
    (if negb dontRetry && IsSinglePushTxnRequest ba then
       match Requests ba with
       | PushTxn pushReq :: _ => ret (ShouldPushImmediately pushReq)
       | _ :: _ => stop (Panic "interface conversion")
       | [] => stop (Panic "index out of range")
       end
     else ret dontRetry) ;;
  if dontRetry : bool then ret (Some pErr)
  else
    emit (Ev_Enqueue (PusheeTxn t)) ;;
    update (txnWaitQueue_Enqueue r (PusheeTxn t)) ;;
    ret None.

Definition handleIndeterminateCommitError
           (ba : BatchRequest) (pErr : Error) (t : IndeterminateCommitError)
  : M S (option Error) :=
  if DontRecoverIndeterminateCommits knobs then ret (Some pErr)
  else
    err <- call (ResolveIndeterminateCommit r t) ;;
    match err with
    | Some e =>
        if isAmbiguousResultError e then ret None
        else
          match NewError (Some e) with
          | Some newPErr => ret (Some (setIndex newPErr (Error_Index pErr)))
          | None => stop (Panic "nil pointer dereference")
          end
    | None => ret None
    end.

Definition handleMergeInProgressError (ba : BatchRequest) (pErr : Error)
  : M S (option Error) :=
  mergeCompleteCh <- gets (getMergeCompleteCh r) ;;
  match mergeCompleteCh with
  | None => ret None
  | Some ch =>
      log_Event "waiting on in-progress merge" ;;
      fired <- call (selectMergeWait r ch) ;;
      match fired with
      | MergeComplete => ret None
      | CtxDone =>
          err <- gets (ctx_Err r) ;;
          ret (NewError (Wrap err "aborted during merge"))
      | ShouldQuiesce =>
          ret (NewError (Some (Structured Detail_NodeUnavailable)))
      end
  end.

(** One result of the retry loop: the cleanup closure held at that point
    and the named results [br], [pErr]. *)
Definition LoopResult : Type :=
  (option CleanupFunc * (option BatchResponse * option Error))%type.

(** The [for] loop of [executeBatchWithConcurrencyRetries]; [fuel] bounds
    the number of iterations.  The type switch is on [pErr.GetDetail()],
    which is nil exactly when [pErr] is; the handlers are given the error
    itself. *)
Fixpoint retryLoop (fuel : nat) (ba : BatchRequest) (fn : batchExecutionFn S)
         (spans : SpanSet) (cleanup : option CleanupFunc)
  : M S LoopResult :=
  match fuel with
  | O => stop OutOfFuel
  | Datatypes.S fuel' =>
      err <- gets (ctx_Err r) ;;
      match err with
      | Some _ =>
          ret (cleanup,
               (None, NewError (Wrap err "aborted during Replica.Send")))
      | None =>
          ' (br, pErr) <- call (maybeWaitForPushee r ba) ;;
          if isSome br || isSome pErr then ret (cleanup, (br, pErr))
          else
            lg <- call (beginCmds r ba spans) ;;
            match lg with
            | inr err => ret (cleanup, (None, NewError (Some err)))
            | inl lg =>
                ' (br, pErr) <- call (fn ba spans lg) ;;
                match pErr with
                | None => ret (cleanup, (br, None))
                | Some e =>
                    match GoError e with
                    | Structured (Detail_WriteIntent t) =>
                        ' (cleanup, pErr) <-
                          handleWriteIntentError ba e t cleanup ;;
                        match pErr with
                        | Some _ => ret (cleanup, (None, pErr))
                        | None => retryLoop fuel' ba fn spans cleanup
                        end
                    | Structured (Detail_TransactionPush t) =>
                        pErr <- handleTransactionPushError ba e t ;;
                        match pErr with
                        | Some _ => ret (cleanup, (None, pErr))
                        | None => retryLoop fuel' ba fn spans cleanup
                        end
                    | Structured (Detail_IndeterminateCommit t) =>
                        pErr <- handleIndeterminateCommitError ba e t ;;
                        match pErr with
                        | Some _ => ret (cleanup, (None, pErr))
                        | None => retryLoop fuel' ba fn spans cleanup
                        end
                    | Structured Detail_MergeInProgress =>
                        pErr <- handleMergeInProgressError ba e ;;
                        match pErr with
                        | Some _ => ret (cleanup, (None, pErr))
                        | None => retryLoop fuel' ba fn spans cleanup
                        end
                    | _ => ret (cleanup, (None, pErr))
                    end
                end
            end
      end
  end.

(** [br.Txn] for [br] a [*BatchResponse] and [Txn] a [*Transaction] that
    is read through: a nil pointer panics. *)
Definition br_Txn (br : option BatchResponse) : M S Transaction :=
  match br with
  | None => stop (Panic "nil pointer dereference")
  | Some b =>
      match BatchResponse_Txn b with
      | None => stop (Panic "nil pointer dereference")
      | Some txn => ret txn
      end
  end.

(** The deferred closure of [executeBatchWithConcurrencyRetries], run on
    the named results at return. *)
Definition deferredCleanup (ba : BatchRequest) (res : LoopResult)
  : M S unit :=
  let '(cleanup, (br, pErr)) := res in
  match cleanup with
  | Some c =>
      wroteIntent <-
        (if negb (isSome pErr) && isSome (Txn (BatchRequest_Header ba)) then
           txn <- br_Txn br ;;
           ret (negb (IsFinalized (Status txn)) && negb (IsReadOnly ba))
         else ret false) ;;
      if wroteIntent : bool then
        txn <- br_Txn br ;;
        cleanupCall c None (Some (Transaction_TxnMeta txn))
      else cleanupCall c None None
  | None => ret tt
  end.

Definition executeBatchWithConcurrencyRetries
           (fuel : nat) (ba : BatchRequest) (fn : batchExecutionFn S)
  : M S (option BatchResponse * option Error) :=
  match collectSpans r ba with
  | inr err => ret (None, NewError (Some err))
  | inl spans =>
      update (recordBatchForLoadBasedSplitting r ba spans) ;;
      res <- retryLoop fuel ba fn spans None ;;
      deferredCleanup ba res ;;
      ret (snd res)
  end.

(** [returnRangeInfo(resp, r)]. *)
Definition returnRangeInfo (resp : Response) : Response :=
  {| Response_Method := Response_Method resp;
     Response_Txn := Response_Txn resp;
     RangeInfos := true |}.

(** The type switch of [executeAdminBatch]: the reply and [pErr] of the
    command, or nothing for an unrecognized command. *)
Definition adminCommand (ba : BatchRequest) (args : Request)
  : option (M S (Response * option Error)) :=
  let fromErr (method : string) (c : Ext S (option error)) :=
    err <- call c ;; ret (emptyResponse method, NewError err) in
  let withErr (c : Ext S (Response * option error)) :=
    ' (reply, err) <- call c ;; ret (reply, NewError err) in
  match args with
  | AdminSplitRequest => Some (call (AdminSplit r))
  | AdminUnsplitRequest => Some (call (AdminUnsplit r))
  | AdminMergeRequest => Some (call (AdminMerge r))
  | AdminTransferLeaseRequest =>
      Some (fromErr "AdminTransferLease" (AdminTransferLease r))
  | AdminChangeReplicasRequest =>
      Some (' (desc, err) <- call (ChangeReplicas r) ;;
            match NewError err with
            | Some pErr =>
                ret (emptyResponse "AdminChangeReplicas", Some pErr)
            | None => ret (desc, None)
            end)
  | AdminRelocateRangeRequest =>
      Some (fromErr "AdminRelocateRange" (AdminRelocateRange r))
  | CheckConsistencyRequest => Some (call (CheckConsistency r))
  | ImportRequest =>
      Some (withErr (importCmdFn r (BatchRequest_Header ba) args))
  | AdminScatterRequest => Some (withErr (adminScatter r))
  | PushTxn _ | OtherRequest _ => None
  end.

Definition executeAdminBatch (ba : BatchRequest)
  : M S (option BatchResponse * option Error) :=
  if negb (Nat.eqb (List.length (Requests ba)) 1) then
    ret (None, NewErrorf "only single-element admin batches allowed")
  else
    args <- match Requests ba with
            | args :: _ => ret args
            | [] => stop (Panic "index out of range")
            end ;;
    emit Ev_redirectOnOrAcquireLease ;;
    ' (status, pErr) <- call (redirectOnOrAcquireLease r) ;;
    match pErr with
    | Some _ => ret (None, pErr)
    | None =>
        err <- gets (checkExecutionCanProceed r ba status) ;;
        match err with
        | Some _ => ret (None, NewError err)
        | None =>
            match adminCommand ba args with
            | None => ret (None, NewErrorf "unrecognized admin command: %T")
            | Some command =>
                ' (resp, pErr) <- command ;;
                match pErr with
                | Some _ => ret (None, pErr)
                | None =>
                    let resp :=
                      if ReturnRangeInfo (BatchRequest_Header ba)
                      then returnRangeInfo resp else resp in
                    ret (Some {| BatchResponse_Txn := Response_Txn resp;
                                 Responses := [resp] |},
                         None)
                end
            end
        end
    end.

(** The end of [sendWithRangeID]: what becomes of the results of the
    branch that was taken. *)
Definition respond (ba : BatchRequest) (br : option BatchResponse)
           (pErr : option Error)
  : M S (option BatchResponse * option Error) :=
  match pErr with
  | Some _ =>
      log_Event "replica.Send got error" ;;
      ret (br, pErr)
  | None =>
      match TestingResponseFilter knobs with
      | Some filter =>
          emit (Ev_TestingResponseFilter ba br) ;;
          pErr <- call (filter ba br) ;;
          ret (br, pErr)
      | None => ret (br, pErr)
      end
  end.

Definition sendWithRangeID (fuel : nat) (rangeID : RangeID)
           (ba : BatchRequest)
  : M S (option BatchResponse * option Error) :=
  match leaseholderStats_record r with
  | Some record =>
      if negb (GatewayNodeID (BatchRequest_Header ba) =? 0)
      then update (record (GatewayNodeID (BatchRequest_Header ba)))
      else ret tt
  | None => ret tt
  end ;;
  update (maybeInitializeRaftGroup r) ;;
  let isReadOnly := IsReadOnly ba in
  let useRaft := negb isReadOnly && IsWrite ba in
  match checkBatchRequest ba isReadOnly with
  | Some err => ret (None, NewError (Some err))
  | None =>
      err <- call (maybeBackpressureBatch r ba) ;;
      match err with
      | Some _ => ret (None, NewError err)
      | None =>
          match maybeStripInFlightWrites ba with
          | inr err => ret (None, NewError (Some err))
          | inl ba =>
              pErr <- match TestingRequestFilter knobs with
                      | Some filter => call (filter ba)
                      | None => ret None
                      end ;;
              match pErr with
              | Some _ => ret (None, pErr)
              | None =>
                  ' (br, pErr) <-
                    (if useRaft then
                       log_Event "read-write path" ;;
                       executeBatchWithConcurrencyRetries
                         fuel ba (executeWriteBatch r)
                     else if isReadOnly then
                       log_Event "read-only path" ;;
                       executeBatchWithConcurrencyRetries
                         fuel ba (executeReadOnlyBatch r)
                     else if IsAdmin ba then
                       log_Event "admin path" ;;
                       executeAdminBatch ba
                     else if Nat.eqb (List.length (Requests ba)) 0 then
                       log_Fatalf "empty batch"
                     else log_Fatalf "don't know how to handle command") ;;
                  respond ba br pErr
              end
          end
      end
  end.

Definition Send (fuel : nat) (ba : BatchRequest)
  : M S (option BatchResponse * option Error) :=
  sendWithRangeID fuel (Replica_RangeID r) ba.

End ReplicaSend.

(** The four conflict kinds the retry loop understands. *)
Definition isConflictError (err : error) : bool :=
  match err with
  | Structured (Detail_WriteIntent _)
  | Structured (Detail_TransactionPush _)
  | Structured (Detail_IndeterminateCommit _)
  | Structured Detail_MergeInProgress => true
  | _ => false
  end.

(** What a handler keeps of the error of its resolution: nothing of an
    ambiguous result, any other error with the index of the conflict. *)
Definition residual (index : option ErrPosition) (pErr' : option Error)
  : option Error :=
  match pErr' with
  | Some e =>
      if isAmbiguousResultError (GoError e) then None
      else Some (setIndex e index)
  | None => None
  end.

(** The world once [handleWriteIntentError] has chained the cleanup of the
    previous attempt to the new conflict. *)
Definition chained {S} (r : Replica S) (t : WriteIntentError)
           (cleanup : option CleanupFunc) (w : World S) : World S :=
  match cleanup with
  | Some c =>
      {| ext := runCleanup r c (Some t) None (ext w);
         trace := trace w ++ [Ev_cleanup c (Some t) None] |}
  | None => w
  end.

(** Counting the events of a kind in a trace. *)
Definition count (p : Event -> bool) (tr : list Event) : nat :=
  List.length (filter p tr).

Definition isAcquire (ev : Event) : bool :=
  match ev with
  | Ev_ProcessWriteIntentError (Some _) => true
  | _ => false
  end.

Definition isCleanupCall (ev : Event) : bool :=
  match ev with
  | Ev_cleanup _ _ _ => true
  | _ => false
  end.

Definition isFilterCall (ev : Event) : bool :=
  match ev with
  | Ev_TestingResponseFilter _ _ => true
  | _ => false
  end.

(** Cleanup handles obtained from the intent resolver, and calls of cleanup
    closures, in a trace. *)
Definition acquired (tr : list Event) : nat := count isAcquire tr.
Definition released (tr : list Event) : nat := count isCleanupCall tr.


(** The cleanup closures a caller holds: one or none. *)
Definition held (cleanup : option CleanupFunc) : nat :=
  match cleanup with
  | Some _ => 1%nat
  | None => 0%nat
  end.

(** A computation that ends [sendWithRangeID], seen from the response
    filter: when it returns, either the filter was called once, as the last
    event, on the response that is returned, and the error returned is the
    filter's answer; or the filter was not called and an error is
    returned. *)
Definition respondsThroughFilter {S}
           (filter : BatchRequest -> option BatchResponse ->
                     Ext S (option Error))
           (m : M S (option BatchResponse * option Error)) : Prop :=
  forall w br pErr w',
    m w = Ret (br, pErr) w' ->
    (exists ba tr s,
        trace w' = trace w ++ tr ++ [Ev_TestingResponseFilter ba br]
        /\ count isFilterCall tr = 0%nat
        /\ filter ba br s = (pErr, ext w'))
    \/ (count isFilterCall (trace w') = count isFilterCall (trace w)
        /\ pErr <> None).

(** The events of the conflict handlers and of the admin executor: all but
    the call of the response filter. *)
Definition isInnerEvent (ev : Event) : bool := negb (isFilterCall ev).

(** The events that neither obtain nor call a cleanup closure. *)
Definition isPlainEvent (ev : Event) : bool :=
  match ev with
  | Ev_log _ | Ev_Enqueue _ | Ev_redirectOnOrAcquireLease => true
  | _ => false
  end.

(** A computation that, when it returns, has extended the trace by events
    of one kind only. *)
Definition emitsOnly {S A} (q : Event -> bool) (m : M S A) : Prop :=
  forall w a w',
    m w = Ret a w' ->
    exists tr, trace w' = trace w ++ tr /\ forallb q tr = true.

(* ------------------------------------------------------------------ *)
(** ** A scripted replica, to run the code on concrete inputs *)

Module Scripted.

(** The collaborators' state: the results the executor still has to
    return, one per invocation. *)
Definition Script : Type := list (option BatchResponse * option Error).

Definition okResponse (txn : option Transaction) : BatchResponse :=
  {| BatchResponse_Txn := txn; Responses := [emptyResponse "Put"] |}.

Definition executor : batchExecutionFn Script :=
  fun ba _ _ s =>
    match s with
    | res :: s' => (res, s')
    | [] => ((Some (okResponse (Txn (BatchRequest_Header ba))), None), [])
    end.

Definition isAdminRequest (req : Request) : bool :=
  match req with
  | PushTxn _ | OtherRequest _ => false
  | _ => true
  end.

Definition isWriteRequest (req : Request) : bool :=
  match req with
  | OtherRequest "Put" | PushTxn _ => true
  | _ => false
  end.

Definition isReadRequest (req : Request) : bool :=
  match req with
  | OtherRequest "Get" => true
  | _ => false
  end.

Definition helpers : Helpers :=
  {| IsFinalized :=
       fun status =>
         match status with
         | COMMITTED | ABORTED => true
         | PENDING | STAGING => false
         end;
     IsReadOnly :=
       fun ba =>
         negb (Nat.eqb (List.length (Requests ba)) 0)
         && forallb isReadRequest (Requests ba);
     IsWrite := fun ba => existsb isWriteRequest (Requests ba);
     IsAdmin := fun ba => existsb isAdminRequest (Requests ba);
     ShouldPushImmediately := Force;
     maybeStripInFlightWrites := fun ba => inl ba |}.

Definition knobs (dontPush dontRetry dontRecover : bool)
           (responseFilter :
              option (BatchRequest -> option BatchResponse ->
                      Ext Script (option Error)))
  : StoreTestingKnobs Script :=
  {| DontPushOnWriteIntentError := dontPush;
     DontRetryPushTxnFailures := dontRetry;
     DontRecoverIndeterminateCommits := dontRecover;
     TestingRequestFilter := None;
     TestingResponseFilter := responseFilter |}.

Definition noKnobs : StoreTestingKnobs Script :=
  knobs false false false None.

Definition okReply (method : string) : Response * option Error :=
  (emptyResponse method, None).

(** A replica whose context is live, whose latches are free and whose
    lease is held; the answers of the intent resolver, the recovery
    manager and the merge wait are given. *)
Definition replica (k : StoreTestingKnobs Script)
           (resolved : option CleanupFunc * option Error)
           (recovered : option error)
           (mergeCh : option MergeCompleteCh) (fired : SelectCase)
           (ctxErr : option error)
  : Replica Script :=
  {| Replica_RangeID := 21;
     TestingKnobs := k;
     leaseholderStats_record := None;
     maybeInitializeRaftGroup := fun s => s;
     maybeBackpressureBatch := fun _ s => (None, s);
     executeWriteBatch := executor;
     executeReadOnlyBatch := executor;
     collectSpans := fun _ => inl (SpanSet_of 0);
     recordBatchForLoadBasedSplitting := fun _ _ s => s;
     ctx_Err := fun _ => ctxErr;
     maybeWaitForPushee := fun _ s => ((None, None), s);
     beginCmds := fun _ _ s => (inl (Guard_of 0), s);
     ProcessWriteIntentError := fun _ _ _ _ s => (resolved, s);
     runCleanup := fun _ _ _ s => s;
     ResolveIndeterminateCommit := fun _ s => (recovered, s);
     txnWaitQueue_Enqueue := fun _ s => s;
     getMergeCompleteCh := fun _ => mergeCh;
     selectMergeWait := fun _ s => (fired, s);
     redirectOnOrAcquireLease := fun s => ((LeaseStatus_of 0, None), s);
     checkExecutionCanProceed := fun _ _ _ => None;
     AdminSplit := fun s => (okReply "AdminSplit", s);
     AdminUnsplit := fun s => (okReply "AdminUnsplit", s);
     AdminMerge := fun s => (okReply "AdminMerge", s);
     AdminTransferLease := fun s => (None, s);
     ChangeReplicas :=
       fun s => ((emptyResponse "AdminChangeReplicas", None), s);
     AdminRelocateRange := fun s => (None, s);
     CheckConsistency := fun s => (okReply "CheckConsistency", s);
     importCmdFn := fun _ _ s => ((emptyResponse "Import", None), s);
     adminScatter := fun s => ((emptyResponse "AdminScatter", None), s) |}.

Definition plain : Replica Script :=
  replica noKnobs (Some 1%nat, None) None None MergeComplete None.

(** The same replica under other knobs. *)
Definition withKnobs (k : StoreTestingKnobs Script) : Replica Script :=
  replica k (Some 1%nat, None) None None MergeComplete None.

(** A response filter that lets the response through, and one that turns
    it into an error. *)
Definition passFilter
  : BatchRequest -> option BatchResponse -> Ext Script (option Error) :=
  fun _ _ s => (None, s).

Definition injected : Error :=
  {| GoError := errors_New "injected"; Error_Index := None |}.

Definition injectFilter
  : BatchRequest -> option BatchResponse -> Ext Script (option Error) :=
  fun _ _ s => (Some injected, s).

Definition ts (wall : Z) : hlc.Timestamp :=
  {| hlc.WallTime := wall; hlc.Logical := 0 |}.

Definition meta1 : TxnMeta := {| ID := 1; WriteTimestamp := ts 10 |}.
Definition meta2 : TxnMeta := {| ID := 2; WriteTimestamp := ts 5 |}.

(** A pending transaction that observed node 1 at time 12. *)
Definition txn1 : Transaction :=
  {| Transaction_TxnMeta := meta1;
     Status := PENDING;
     ObservedTimestamps :=
       [{| ObservedTimestamp_NodeID := 1;
           ObservedTimestamp_Timestamp := ts 12 |}] |}.

(** The same transaction without observed timestamps. *)
Definition txn1_unobserved : Transaction :=
  {| Transaction_TxnMeta := meta1;
     Status := PENDING;
     ObservedTimestamps := [] |}.

Definition txn2 : Transaction :=
  {| Transaction_TxnMeta := meta2; Status := PENDING;
     ObservedTimestamps := [] |}.

Definition header (txn : option Transaction) (rc : ReadConsistencyType)
  : Header :=
  {| Timestamp := ts 10;
     Header_Replica := {| ReplicaDescriptor_NodeID := 1 |};
     Txn := txn;
     ReadConsistency := rc;
     GatewayNodeID := 1;
     ReturnRangeInfo := false |}.

Definition batch (txn : option Transaction) (reqs : list Request)
  : BatchRequest :=
  {| BatchRequest_Header := header txn CONSISTENT; Requests := reqs |}.

Definition put : Request := OtherRequest "Put".
Definition get : Request := OtherRequest "Get".

Definition errorAt (err : error) (i : Z) : Error :=
  {| GoError := err; Error_Index := Some {| Index := i |} |}.

Definition wiErr : WriteIntentError := {| Intents := [meta2] |}.
Definition writeIntent : Error :=
  errorAt (Structured (Detail_WriteIntent wiErr)) 0.
Definition pushErr : TransactionPushError := {| PusheeTxn := txn2 |}.
Definition pushFailed : Error :=
  errorAt (Structured (Detail_TransactionPush pushErr)) 0.
Definition indetErr : IndeterminateCommitError := {| StagingTxn := txn2 |}.
Definition indeterminate : Error :=
  errorAt (Structured (Detail_IndeterminateCommit indetErr)) 0.
Definition mergeInProgress : Error :=
  errorAt (Structured Detail_MergeInProgress) 0.
Definition ambiguous : error := Structured (Detail_AmbiguousResult "rpc").
Definition notLeaseHolder : Error :=
  errorAt (Structured (Detail_Other "NotLeaseHolderError")) 0.

Definition start (script : Script) : World Script :=
  {| ext := script; trace := [] |}.

(** An intent resolver that answers with an ambiguous result. *)
Definition ambiguousResolver : Replica Script :=
  replica noKnobs (Some 1%nat, Some (errorAt ambiguous 3)) (Some ambiguous)
          None MergeComplete None.

(** An intent resolver that fails with an error of its own, at another
    index. *)
Definition failingResolver : Replica Script :=
  replica noKnobs (None, Some (errorAt (errors_New "push failed") 7))
          (Some (errors_New "recovery failed")) None MergeComplete None.

End Scripted.

(* ------------------------------------------------------------------ *)
(** ** The rest of replica_send.go: span collection and the limit on a
       transaction's max timestamp *)

(** A computation that stops only for reasons of one kind. *)
Definition stopsOnly {S A} (P : Abort -> Prop) (m : M S A) : Prop :=
  forall w e, m w = Stop e -> P e.

(** A stop that, when it is a [log.Fatalf], has a message of one kind. *)
Definition fatalOnly (Q : string -> Prop) (e : Abort) : Prop :=
  match e with
  | Fatal msg => Q msg
  | Panic _ | OutOfFuel => True
  end.

(** The events that neither obtain nor call a cleanup closure. *)
Definition isCleanupFree (ev : Event) : bool :=
  negb (isCleanupCall ev) && negb (isAcquire ev).

(** A computation that, when it returns, has called cleanup closures as
    often as it has obtained them. *)
Definition keepsCleanupBalance {S A} (m : M S A) : Prop :=
  forall w a w',
    m w = Ret a w' ->
    (released (trace w') + acquired (trace w)
     = acquired (trace w') + released (trace w))%nat.

(** Results that are a response or an error, and not both. *)
Definition exclusiveResult (res : option BatchResponse * option Error)
  : Prop :=
  (fst res = None /\ snd res <> None) \/ (fst res <> None /\ snd res = None).

Module storagepb.

Inductive LeaseState : Type :=
| LeaseState_ERROR
| LeaseState_VALID
| LeaseState_STASIS
| LeaseState_EXPIRED
| LeaseState_PROSCRIBED.

(** storagepb.LeaseStatus, as far as [limitTxnMaxTimestamp] reads it: the
    state and the start of the lease. *)
Record LeaseStatus : Type := {
  State : LeaseState;
  Lease_Start : hlc.Timestamp
}.

End storagepb.

(** The transaction of a batch together with the two timestamps of
    roachpb.Transaction that [limitTxnMaxTimestamp] reads and writes. *)
Record TimedTransaction : Type := {
  Timed_Txn : Transaction;
  ReadTimestamp : hlc.Timestamp;
  MaxTimestamp : hlc.Timestamp
}.

(** [Replica.limitTxnMaxTimestamp].  The batch enters through
    [ba.Replica.NodeID] and [ba.Txn]; the result is [ba.Txn] after the
    call. *)
Definition limitTxnMaxTimestamp {S} (nodeID : NodeID)
           (txn : option TimedTransaction) (status : storagepb.LeaseStatus)
  : M S (option TimedTransaction) :=
  match txn with
  | None => ret None
  | Some t =>
      match GetObservedTimestamp (Timed_Txn t) nodeID with
      | None => ret txn
      | Some obsTS =>
          let obsTS :=
            match storagepb.State status with
            | storagepb.LeaseState_VALID =>
                hlc.Forward obsTS (storagepb.Lease_Start status)
            | _ => obsTS
            end in
          if hlc.Less obsTS (MaxTimestamp t) then
            (if negb (hlc.Less (ReadTimestamp t) obsTS)
             then log_Event "read has no clock uncertainty"
             else ret tt) ;;
            ret (Some {| Timed_Txn := Clone (Timed_Txn t);
                         ReadTimestamp := ReadTimestamp t;
                         MaxTimestamp :=
                           hlc.Backward (MaxTimestamp t) obsTS |})
          else ret txn
      end
  end.

(** The limit [limitTxnMaxTimestamp] compares the max timestamp with: the
    observed timestamp, forwarded to the start of a valid lease. *)
Definition observedLimit (obsTS : hlc.Timestamp)
           (status : storagepb.LeaseStatus) : hlc.Timestamp :=
  match storagepb.State status with
  | storagepb.LeaseState_VALID =>
      hlc.Forward obsTS (storagepb.Lease_Start status)
  | _ => obsTS
  end.

Inductive SpanAccess : Type := SpanReadOnly | SpanReadWrite.
Inductive SpanScope : Type := SpanGlobal | SpanLocal.

(** What [collectSpans] uses of spanset and batcheval, for the range
    descriptor of the replica: the empty span set and its operations, the
    method of a request, the command registry and the declare-keys
    functions. *)
Class SpanDeclarations : Type := {
  Command : Type;
  emptySpans : SpanSet;
  Reserve : SpanAccess -> SpanScope -> Z -> SpanSet -> SpanSet;
  Method : Request -> string;
  EndTransactionIntentSpans : BatchRequest -> option Z;
  DeclareKeysForBatch : Header -> SpanSet -> SpanSet;
  LookupCommand : string -> option Command;
  DeclareKeys : Command -> Header -> Request -> SpanSet -> SpanSet;
  SortAndDedup : SpanSet -> SpanSet;
  Validate : SpanSet -> option error
}.

Section CollectSpans.

Context {helpers : Helpers} {decl : SpanDeclarations}.

(** The loop of [collectSpans] over [ba.Requests]. *)
Fixpoint declareRequests (h : Header) (reqs : list Request) (spans : SpanSet)
  : SpanSet + error :=
  match reqs with
  | [] => inl spans
  | inner :: reqs' =>
      match LookupCommand (Method inner) with
      | Some cmd => declareRequests h reqs' (DeclareKeys cmd h inner spans)
      | None =>
          inr (errors_New
                 (String.append "unrecognized command " (Method inner)))
      end
  end.

(** [Replica.collectSpans]. *)
Definition Replica_collectSpans (ba : BatchRequest) : SpanSet + error :=
  let len := Z.of_nat (List.length (Requests ba)) in
  let spans :=
    if IsReadOnly ba then Reserve SpanReadOnly SpanGlobal len emptySpans
    else
      let guess :=
        match EndTransactionIntentSpans ba with
        | Some n => len + (n - 1)
        | None => len
        end in
      Reserve SpanReadWrite SpanGlobal guess emptySpans in
  let spans := DeclareKeysForBatch (BatchRequest_Header ba) spans in
  match declareRequests (BatchRequest_Header ba) (Requests ba) spans with
  | inr err => inr err
  | inl spans =>
      let spans := SortAndDedup spans in
      match Validate spans with
      | Some err => inr err
      | None => inl spans
      end
  end.

End CollectSpans.

Module Scripted2.

Import Scripted.

(** A registry that knows Get, Put and PushTxn, and span sets that count
    the declarations made into them; the set is invalid once it holds more
    than three. *)
Definition methodOf (req : Request) : string :=
  match req with
  | PushTxn _ => "PushTxn"
  | OtherRequest m => m
  | _ => "Admin"
  end.

Definition declarations : SpanDeclarations :=
  {| Command := unit;
     emptySpans := SpanSet_of 0;
     Reserve := fun _ _ _ spans => spans;
     Method := methodOf;
     EndTransactionIntentSpans := fun _ => None;
     DeclareKeysForBatch := fun _ spans => spans;
     LookupCommand :=
       fun m =>
         if (String.eqb m "Get" || String.eqb m "Put"
             || String.eqb m "PushTxn")%bool
         then Some tt else None;
     DeclareKeys :=
       fun _ _ _ spans => match spans with SpanSet_of n => SpanSet_of (S n) end;
     SortAndDedup := fun spans => spans;
     Validate :=
       fun spans =>
         match spans with
         | SpanSet_of n =>
             if Nat.ltb 3 n then Some (errors_New "invalid spans") else None
         end |}.

(** The scripted replica with this span collection. *)
Definition collecting : Replica Script :=
  {| Replica_RangeID := Replica_RangeID plain;
     TestingKnobs := TestingKnobs plain;
     leaseholderStats_record := leaseholderStats_record plain;
     maybeInitializeRaftGroup := maybeInitializeRaftGroup plain;
     maybeBackpressureBatch := maybeBackpressureBatch plain;
     executeWriteBatch := executeWriteBatch plain;
     executeReadOnlyBatch := executeReadOnlyBatch plain;
     collectSpans :=
       Replica_collectSpans (helpers := helpers) (decl := declarations);
     recordBatchForLoadBasedSplitting := recordBatchForLoadBasedSplitting plain;
     ctx_Err := ctx_Err plain;
     maybeWaitForPushee := maybeWaitForPushee plain;
     beginCmds := beginCmds plain;
     ProcessWriteIntentError := ProcessWriteIntentError plain;
     runCleanup := runCleanup plain;
     ResolveIndeterminateCommit := ResolveIndeterminateCommit plain;
     txnWaitQueue_Enqueue := txnWaitQueue_Enqueue plain;
     getMergeCompleteCh := getMergeCompleteCh plain;
     selectMergeWait := selectMergeWait plain;
     redirectOnOrAcquireLease := redirectOnOrAcquireLease plain;
     checkExecutionCanProceed := checkExecutionCanProceed plain;
     AdminSplit := AdminSplit plain;
     AdminUnsplit := AdminUnsplit plain;
     AdminMerge := AdminMerge plain;
     AdminTransferLease := AdminTransferLease plain;
     ChangeReplicas := ChangeReplicas plain;
     AdminRelocateRange := AdminRelocateRange plain;
     CheckConsistency := CheckConsistency plain;
     importCmdFn := importCmdFn plain;
     adminScatter := adminScatter plain |}.

(** Transaction 1 with read timestamp 10 and max timestamp 20; node 1 was
    observed at 12. *)
Definition timed1 : TimedTransaction :=
  {| Timed_Txn := txn1; ReadTimestamp := ts 10; MaxTimestamp := ts 20 |}.

(** The same transaction reading at 14. *)
Definition timed2 : TimedTransaction :=
  {| Timed_Txn := txn1; ReadTimestamp := ts 14; MaxTimestamp := ts 20 |}.

(** An executor that follows the script but never answers (nil, nil). *)
Definition answering : batchExecutionFn Script :=
  fun ba _ _ s =>
    match s with
    | (None, None) :: s' =>
        ((Some (okResponse (Txn (BatchRequest_Header ba))), None), s')
    | res :: s' => (res, s')
    | [] => ((Some (okResponse (Txn (BatchRequest_Header ba))), None), [])
    end.

(** The scripted replica with this executor on both paths. *)
Definition answeringReplica : Replica Script :=
  {| Replica_RangeID := Replica_RangeID plain;
     TestingKnobs := TestingKnobs plain;
     leaseholderStats_record := leaseholderStats_record plain;
     maybeInitializeRaftGroup := maybeInitializeRaftGroup plain;
     maybeBackpressureBatch := maybeBackpressureBatch plain;
     executeWriteBatch := answering;
     executeReadOnlyBatch := answering;
     collectSpans := collectSpans plain;
     recordBatchForLoadBasedSplitting := recordBatchForLoadBasedSplitting plain;
     ctx_Err := ctx_Err plain;
     maybeWaitForPushee := maybeWaitForPushee plain;
     beginCmds := beginCmds plain;
     ProcessWriteIntentError := ProcessWriteIntentError plain;
     runCleanup := runCleanup plain;
     ResolveIndeterminateCommit := ResolveIndeterminateCommit plain;
     txnWaitQueue_Enqueue := txnWaitQueue_Enqueue plain;
     getMergeCompleteCh := getMergeCompleteCh plain;
     selectMergeWait := selectMergeWait plain;
     redirectOnOrAcquireLease := redirectOnOrAcquireLease plain;
     checkExecutionCanProceed := checkExecutionCanProceed plain;
     AdminSplit := AdminSplit plain;
     AdminUnsplit := AdminUnsplit plain;
     AdminMerge := AdminMerge plain;
     AdminTransferLease := AdminTransferLease plain;
     ChangeReplicas := ChangeReplicas plain;
     AdminRelocateRange := AdminRelocateRange plain;
     CheckConsistency := CheckConsistency plain;
     importCmdFn := importCmdFn plain;
     adminScatter := adminScatter plain |}.

Definition validLease (start : Z) : storagepb.LeaseStatus :=
  {| storagepb.State := storagepb.LeaseState_VALID;
     storagepb.Lease_Start := ts start |}.

Definition expiredLease (start : Z) : storagepb.LeaseStatus :=
  {| storagepb.State := storagepb.LeaseState_EXPIRED;
     storagepb.Lease_Start := ts start |}.

End Scripted2.

(* ------------------------------------------------------------------ *)
(** ** Reasoning about computations *)

Lemma hlc_eqb_eq (t s : hlc.Timestamp) : hlc.eqb t s = true <-> t = s.
Proof.
  destruct t as [w l], s as [w' l']; unfold hlc.eqb; simpl.
  rewrite andb_true_iff, !Z.eqb_eq.
  split; [intros [-> ->]; reflexivity | intros H; inversion H; auto].
Qed.

Lemma ReadConsistencyType_eqb_eq (a b : ReadConsistencyType) :
  ReadConsistencyType_eqb a b = true <-> a = b.
Proof. destruct a, b; simpl; split; congruence. Qed.

Lemma GetDetail_nil (pErr : option Error) : GetDetail pErr = None <-> pErr = None.
Proof. destruct pErr; simpl; split; congruence. Qed.

Section Computations.

Context {S : Type}.

Lemma bind_Ret_inv {A B} (m : M S A) (k : A -> M S B) w b w' :
  bind m k w = Ret b w' ->
  exists a w1, m w = Ret a w1 /\ k a w1 = Ret b w'.
Proof.
  unfold bind. destruct (m w) as [a w1 | e]; [eauto | discriminate].
Qed.

Lemma bind_Ret {A B} (m : M S A) (k : A -> M S B) w a w1 :
  m w = Ret a w1 -> bind m k w = k a w1.
Proof. unfold bind. intros ->. reflexivity. Qed.

Lemma call_Ret {A} (f : Ext S A) w a s :
  f (ext w) = (a, s) -> call f w = Ret a {| ext := s; trace := trace w |}.
Proof. unfold call. intros ->. reflexivity. Qed.

Lemma call_Ret_inv {A} (f : Ext S A) w a w' :
  call f w = Ret a w' ->
  f (ext w) = (a, ext w') /\ trace w' = trace w.
Proof.
  unfold call. destruct (f (ext w)) as [a0 s0]. intros H.
  inversion H; subst. auto.
Qed.

Lemma update_Ret_inv (f : S -> S) w u w' :
  update f w = Ret u w' -> ext w' = f (ext w) /\ trace w' = trace w.
Proof. unfold update. intros H. inversion H; subst. auto. Qed.

Lemma gets_Ret_inv {A} (f : S -> A) w a w' :
  gets f w = Ret a w' -> a = f (ext w) /\ w' = w.
Proof. unfold gets. intros H. inversion H; subst. auto. Qed.

Lemma emit_Ret_inv (ev : Event) w u w' :
  @emit S ev w = Ret u w' ->
  ext w' = ext w /\ trace w' = trace w ++ [ev].
Proof. unfold emit. intros H. inversion H; subst. auto. Qed.

Lemma ret_Ret_inv {A} (a b : A) (w w' : World S) :
  ret a w = Ret b w' -> a = b /\ w = w'.
Proof. unfold ret. intros H. inversion H; subst. auto. Qed.

End Computations.

(** Inversion of a run that returned, one bind at a time. *)
Ltac run_inv H :=
  lazymatch type of H with
  | bind _ _ _ = Ret _ _ =>
      let a := fresh "a" in
      let w := fresh "w" in
      let Hm := fresh "Hm" in
      apply bind_Ret_inv in H; destruct H as (a & w & Hm & H)
  | ret _ _ = Ret _ _ =>
      apply ret_Ret_inv in H; destruct H as [? ?]; subst
  | stop _ _ = Ret _ _ => discriminate H
  | log_Fatalf _ _ = Ret _ _ => discriminate H
  | Stop _ = Ret _ _ => discriminate H
  end.

Lemma count_app (p : Event -> bool) (tr tr' : list Event) :
  count p (tr ++ tr') = (count p tr + count p tr')%nat.
Proof. unfold count. rewrite filter_app, length_app. reflexivity. Qed.

Lemma count_none (p q : Event -> bool) (tr : list Event) :
  (forall ev, q ev = true -> p ev = false) ->
  forallb q tr = true -> count p tr = 0%nat.
Proof.
  intros Hpq. unfold count. induction tr as [| ev tr IH]; simpl.
  - reflexivity.
  - rewrite andb_true_iff. intros [Hq Htr].
    rewrite (Hpq ev Hq). auto.
Qed.

Section Emissions.

Context {S : Type} (q : Event -> bool).

Lemma emitsOnly_ret {A} (a : A) : emitsOnly (S := S) q (ret a).
Proof.
  intros w b w' H. apply ret_Ret_inv in H as [_ <-].
  exists []. rewrite app_nil_r. auto.
Qed.

Lemma emitsOnly_stop {A} (e : Abort) : emitsOnly (S := S) (A := A) q (stop e).
Proof. intros w b w' H. discriminate. Qed.

Lemma emitsOnly_call {A} (f : Ext S A) : emitsOnly q (call f).
Proof.
  intros w b w' H. apply call_Ret_inv in H as [_ Htr].
  exists []. rewrite app_nil_r. auto.
Qed.

Lemma emitsOnly_update (f : S -> S) : emitsOnly q (update f).
Proof.
  intros w b w' H. apply update_Ret_inv in H as [_ Htr].
  exists []. rewrite app_nil_r. auto.
Qed.

Lemma emitsOnly_gets {A} (f : S -> A) : emitsOnly q (gets f).
Proof.
  intros w b w' H. apply gets_Ret_inv in H as [_ ->].
  exists []. rewrite app_nil_r. auto.
Qed.

Lemma emitsOnly_emit (ev : Event) : q ev = true -> emitsOnly (S := S) q (emit ev).
Proof.
  intros Hq w b w' H. apply emit_Ret_inv in H as [_ Htr].
  exists [ev]. simpl. rewrite Hq. auto.
Qed.

Lemma emitsOnly_bind {A B} (m : M S A) (k : A -> M S B) :
  emitsOnly q m -> (forall a, emitsOnly q (k a)) -> emitsOnly q (bind m k).
Proof.
  intros Hm Hk w b w' H.
  apply bind_Ret_inv in H as (a & w1 & H1 & H2).
  apply Hm in H1 as (tr1 & Htr1 & Hq1).
  apply Hk in H2 as (tr2 & Htr2 & Hq2).
  exists (tr1 ++ tr2). rewrite Htr2, Htr1, <- app_assoc.
  split; [reflexivity |]. rewrite forallb_app, Hq1, Hq2. reflexivity.
Qed.

Lemma emitsOnly_weaken {A} (q' : Event -> bool) (m : M S A) :
  (forall ev, q' ev = true -> q ev = true) ->
  emitsOnly q' m -> emitsOnly q m.
Proof.
  intros Hq Hm w a w' H. apply Hm in H as (tr & Htr & Hall).
  exists tr. split; [assumption |].
  rewrite forallb_forall in *. auto.
Qed.

(** What a run preserves of the counts, when it emits nothing counted. *)
Lemma emitsOnly_count {A} (p : Event -> bool) (m : M S A) w a w' :
  (forall ev, q ev = true -> p ev = false) ->
  emitsOnly q m -> m w = Ret a w' ->
  count p (trace w') = count p (trace w).
Proof.
  intros Hpq Hm H. apply Hm in H as (tr & -> & Hall).
  rewrite count_app, (count_none p q tr Hpq Hall). lia.
Qed.

End Emissions.

(** Trace discipline of a computation, by its syntax. *)
Ltac emits :=
  repeat first
    [ apply emitsOnly_ret
    | apply emitsOnly_stop
    | apply emitsOnly_gets
    | apply emitsOnly_update
    | apply emitsOnly_call
    | apply emitsOnly_emit; reflexivity
    | assumption
    | apply emitsOnly_bind; [| intros ?]
    | progress cbv beta
    | match goal with
      | IH : forall _, emitsOnly _ _ |- _ => apply IH
      end
    | match goal with
      | |- emitsOnly _ (match ?x with _ => _ end) => destruct x
      end ].

(* ------------------------------------------------------------------ *)
(** ** Batch validation *)

(** C9. [checkBatchRequest] is a total function (it cannot panic); it
    returns an error exactly when the timestamp is the zero timestamp, or
    the batch is read-only, not CONSISTENT and inside a transaction, or the
    batch is not read-only and not CONSISTENT; otherwise it returns nil. *)
Theorem checkBatchRequest_error_iff (ba : BatchRequest) (isReadOnly : bool) :
  let h := BatchRequest_Header ba in
  let invalid :=
    Timestamp h = hlc.zero
    \/ (isReadOnly = true /\ ReadConsistency h <> CONSISTENT /\ Txn h <> None)
    \/ (isReadOnly = false /\ ReadConsistency h <> CONSISTENT) in
  (invalid <-> exists err, checkBatchRequest ba isReadOnly = Some err)
  /\ (~ invalid <-> checkBatchRequest ba isReadOnly = None).
Proof.
  intros h invalid. subst invalid. unfold checkBatchRequest. fold h.
  destruct (hlc.eqb (Timestamp h) hlc.zero) eqn:Hts.
  - apply hlc_eqb_eq in Hts.
    split; split; try (intros; eauto; fail).
    + intros Hn. exfalso. apply Hn. auto.
    + discriminate.
  - assert (Hnz : Timestamp h <> hlc.zero).
    { intros Hz. apply hlc_eqb_eq in Hz. congruence. }
    destruct (ReadConsistencyType_eqb (ReadConsistency h) CONSISTENT) eqn:Hc.
    + apply ReadConsistencyType_eqb_eq in Hc.
      destruct isReadOnly; simpl;
        (split; split;
         [ intros [Hz | [(_ & Hrc & _) | (_ & Hrc)]]; congruence
         | intros [err Herr]; discriminate
         | reflexivity
         | intros _ [Hz | [(_ & Hrc & _) | (_ & Hrc)]]; congruence ]).
    + assert (Hnc : ReadConsistency h <> CONSISTENT).
      { intros Hz. apply ReadConsistencyType_eqb_eq in Hz. congruence. }
      destruct isReadOnly; simpl.
      * destruct (Txn h) as [txn |] eqn:Htxn; simpl.
        -- split; split; try (intros; eauto; fail).
           ++ intros _. right. left. repeat split; congruence.
           ++ intros Hn. exfalso. apply Hn. right. left.
              repeat split; congruence.
           ++ discriminate.
        -- split; split.
           ++ intros [Hz | [(_ & _ & Ht) | (Hro & _)]]; congruence.
           ++ intros [err Herr]; discriminate.
           ++ reflexivity.
           ++ intros _ [Hz | [(_ & _ & Ht) | (Hro & _)]]; congruence.
      * split; split; try (intros; eauto; fail).
        -- intros Hn. exfalso. apply Hn. right. right. auto.
        -- discriminate.
Qed.

Section Handlers.

Context {S : Type} {helpers : Helpers} (r : Replica S).

(* ---------------------------------------------------------------- *)
(** *** The admin executor *)

(** C8. An admin batch with more than one request is answered with the
    error "only single-element admin batches allowed"; the state and the
    trace are as before, so the lease was neither checked nor acquired
    and no command ran. *)
Theorem executeAdminBatch_rejects_multi (ba : BatchRequest) (w : World S) :
  (1 < List.length (Requests ba))%nat ->
  executeAdminBatch r ba w
  = Ret (None,
         Some {| GoError :=
                   errors_New "only single-element admin batches allowed";
                 Error_Index := None |})
        w.
Proof.
  intros Hlen. unfold executeAdminBatch.
  destruct (Nat.eqb (List.length (Requests ba)) 1) eqn:Heq.
  - apply Nat.eqb_eq in Heq. lia.
  - reflexivity.
Qed.

(* ---------------------------------------------------------------- *)
(** *** The transaction-push handler *)

(** C5. The handler gives the conflict back unchanged, leaving state and
    trace alone, exactly when retries are disabled by the knob or the
    batch is a single PushTxn request that [ShouldPushImmediately]
    accepts; in every other case it enqueues the pushee on the wait queue
    and returns nil. *)
Theorem handleTransactionPushError_decision
        (ba : BatchRequest) (pErr : Error) (t : TransactionPushError)
        (w : World S) :
  let dontRetry :=
    DontRetryPushTxnFailures (TestingKnobs r)
    || match Requests ba with
       | [PushTxn pushReq] => ShouldPushImmediately pushReq
       | _ => false
       end in
  (handleTransactionPushError r ba pErr t w = Ret (Some pErr) w
   <-> dontRetry = true)
  /\ (dontRetry = false ->
      handleTransactionPushError r ba pErr t w
      = Ret None
            {| ext := txnWaitQueue_Enqueue r (PusheeTxn t) (ext w);
               trace := trace w ++ [Ev_Enqueue (PusheeTxn t)] |}).
Proof.
  intros dontRetry. subst dontRetry.
  unfold handleTransactionPushError, IsSinglePushTxnRequest.
  destruct (DontRetryPushTxnFailures (TestingKnobs r)); simpl.
  - split; [split; reflexivity | discriminate].
  - destruct (Requests ba) as [| [ | | | | | | | | | p | m] [| req reqs]];
      simpl; try (split; [split; discriminate | reflexivity]).
    unfold bind, ret; simpl.
    destruct (ShouldPushImmediately p); simpl.
    + split; [split; reflexivity | discriminate].
    + split; [split; discriminate | reflexivity].
Qed.

(* ---------------------------------------------------------------- *)
(** *** The merge-in-progress handler *)

(** C6. With a nil merge-completion channel the handler returns nil at
    once, without waiting (state and trace are untouched).  With a
    channel it waits on the select and returns nil when the channel
    fires, the wrapped cancellation error when the context fires, and a
    node-unavailable error when the stopper quiesces.  Whichever case the
    select answers with, the result is one of these three. *)
Theorem handleMergeInProgressError_outcomes
        (ba : BatchRequest) (pErr : Error) (w : World S) :
  let waited s :=
    {| ext := s; trace := trace w ++ [Ev_log "waiting on in-progress merge"] |} in
  (getMergeCompleteCh r (ext w) = None ->
   handleMergeInProgressError r ba pErr w = Ret None w)
  /\ (forall ch s,
         getMergeCompleteCh r (ext w) = Some ch ->
         selectMergeWait r ch (ext w) = (MergeComplete, s) ->
         handleMergeInProgressError r ba pErr w = Ret None (waited s))
  /\ (forall ch s cause,
         getMergeCompleteCh r (ext w) = Some ch ->
         selectMergeWait r ch (ext w) = (CtxDone, s) ->
         ctx_Err r s = Some cause ->
         handleMergeInProgressError r ba pErr w
         = Ret (Some {| GoError := errors_Wrap cause "aborted during merge";
                        Error_Index := None |})
               (waited s))
  /\ (forall ch s,
         getMergeCompleteCh r (ext w) = Some ch ->
         selectMergeWait r ch (ext w) = (ShouldQuiesce, s) ->
         handleMergeInProgressError r ba pErr w
         = Ret (Some {| GoError := Structured Detail_NodeUnavailable;
                        Error_Index := None |})
               (waited s))
  /\ (exists res w',
         handleMergeInProgressError r ba pErr w = Ret res w'
         /\ (res = None
             \/ (exists cause,
                    res = Some {| GoError :=
                                    errors_Wrap cause "aborted during merge";
                                  Error_Index := None |})
             \/ res = Some {| GoError := Structured Detail_NodeUnavailable;
                              Error_Index := None |})).
Proof.
  intros waited. subst waited.
  unfold handleMergeInProgressError, log_Event, bind, gets, emit, call, ret.
  simpl.
  split; [| split; [| split; [| split]]].
  - intros ->. reflexivity.
  - intros ch s -> ->. reflexivity.
  - intros ch s cause -> -> . simpl. intros ->. reflexivity.
  - intros ch s -> ->. reflexivity.
  - destruct (getMergeCompleteCh r (ext w)) as [ch |]; [| eauto].
    destruct (selectMergeWait r ch (ext w)) as [[ | | ] s]; simpl.
    + eauto.
    + destruct (ctx_Err r s) as [cause |]; simpl; eauto 8.
    + eauto 8.
Qed.

(* ---------------------------------------------------------------- *)
(** *** The write-intent and indeterminate-commit handlers *)

(** [requestAt] finds the request an in-range index addresses and leaves
    the world alone. *)
Lemma requestAt_Ret (ba : BatchRequest) (pos : ErrPosition) (args : Request)
      (w : World S) :
  0 <= Index pos ->
  nth_error (Requests ba) (Z.to_nat (Index pos)) = Some args ->
  requestAt (S := S) ba (Some pos) w = Ret args w.
Proof.
  intros Hpos Hnth. unfold requestAt.
  assert (Hlt : (Z.to_nat (Index pos) < List.length (Requests ba))%nat).
  { apply nth_error_Some. congruence. }
  replace (0 <=? Index pos) with true by (symmetry; apply Z.leb_le; lia).
  replace (Index pos <? Z.of_nat (List.length (Requests ba))) with true
    by (symmetry; apply Z.ltb_lt; lia).
  simpl. rewrite Hnth. reflexivity.
Qed.

Lemma requestAt_Ret_inv (ba : BatchRequest) (index : option ErrPosition)
      (args : Request) (w w' : World S) :
  requestAt ba index w = Ret args w' -> w' = w.
Proof.
  unfold requestAt. destruct index as [pos |]; [| discriminate].
  destruct ((0 <=? Index pos)
            && (Index pos <? Z.of_nat (List.length (Requests ba))));
    [| discriminate].
  destruct (nth_error (Requests ba) (Z.to_nat (Index pos)));
    [| discriminate].
  intros H. apply ret_Ret_inv in H. destruct H; auto.
Qed.

(** The handler, once past its guards, is the resolver's answer. *)
Lemma handleWriteIntentError_resolved
      (ba : BatchRequest) (pErr : Error) (t : WriteIntentError)
      (cleanup : option CleanupFunc) (w : World S)
      (pos : ErrPosition) (args : Request) (h : Header)
      (cleanup' : option CleanupFunc) (pErr' : option Error) (s : S) :
  DontPushOnWriteIntentError (TestingKnobs r) = false ->
  Error_Index pErr = Some pos ->
  0 <= Index pos ->
  nth_error (Requests ba) (Z.to_nat (Index pos)) = Some args ->
  pushHeader (BatchRequest_Header ba) = Some h ->
  ProcessWriteIntentError
    r pErr args h (if IsWrite ba then PUSH_ABORT else PUSH_TIMESTAMP)
    (ext (chained r t cleanup w))
  = ((cleanup', pErr'), s) ->
  handleWriteIntentError r ba pErr t cleanup w
  = Ret (cleanup', residual (Error_Index pErr) pErr')
        {| ext := s;
           trace := trace (chained r t cleanup w)
                    ++ [Ev_ProcessWriteIntentError cleanup'] |}.
Proof.
  intros Hknob Hidx Hpos Hnth Hh Hres.
  unfold handleWriteIntentError. rewrite Hknob, Hidx.
  rewrite (bind_Ret _ _ _ _ _ (requestAt_Ret ba pos args w Hpos Hnth)).
  rewrite Hh.
  unfold bind at 1. unfold ret at 1.
  assert (Hchain :
            match cleanup with
            | Some c => cleanupCall r c (Some t) None
            | None => ret tt
            end w = Ret tt (chained r t cleanup w)).
  { destruct cleanup; reflexivity. }
  rewrite (bind_Ret _ _ _ _ _ Hchain).
  rewrite (bind_Ret _ _ _ _ _ (call_Ret _ _ _ _ Hres)).
  unfold residual, bind, emit, ret. simpl.
  destruct pErr' as [e |]; [| reflexivity].
  destruct (isAmbiguousResultError (GoError e)); reflexivity.
Qed.

(** Every return of the handler is either the knob's early return or the
    resolver's answer. *)
Lemma handleWriteIntentError_Ret_inv
      (ba : BatchRequest) (pErr : Error) (t : WriteIntentError)
      (cleanup : option CleanupFunc) (w : World S)
      (c : option CleanupFunc) (res : option Error) (w' : World S) :
  handleWriteIntentError r ba pErr t cleanup w = Ret (c, res) w' ->
  (DontPushOnWriteIntentError (TestingKnobs r) = true
   /\ c = cleanup /\ res = Some pErr /\ w' = w)
  \/ (DontPushOnWriteIntentError (TestingKnobs r) = false
      /\ exists args h pErr',
          pushHeader (BatchRequest_Header ba) = Some h
          /\ ProcessWriteIntentError
               r pErr args h
               (if IsWrite ba then PUSH_ABORT else PUSH_TIMESTAMP)
               (ext (chained r t cleanup w))
             = ((c, pErr'), ext w')
          /\ trace w' = trace (chained r t cleanup w)
                        ++ [Ev_ProcessWriteIntentError c]
          /\ res = residual (Error_Index pErr) pErr').
Proof.
  unfold handleWriteIntentError.
  destruct (DontPushOnWriteIntentError (TestingKnobs r)) eqn:Hknob.
  - intros H. run_inv H. inversion H; subst. left. auto.
  - intros H. right. split; [reflexivity |].
    apply bind_Ret_inv in H as (args & w0 & Hargs & H).
    apply requestAt_Ret_inv in Hargs. subst w0.
    apply bind_Ret_inv in H as (h & w0 & Hh & H).
    destruct (pushHeader (BatchRequest_Header ba)) as [h' |] eqn:Hph;
      [| discriminate Hh].
    apply ret_Ret_inv in Hh as [-> <-].
    apply bind_Ret_inv in H as (u & w1 & Hchain & H).
    assert (w1 = chained r t cleanup w).
    { destruct cleanup as [c0 |]; simpl.
      - unfold cleanupCall in Hchain.
        apply bind_Ret_inv in Hchain as (u' & w2 & Hemit & Hupd).
        apply emit_Ret_inv in Hemit. apply update_Ret_inv in Hupd.
        destruct Hemit as [He Ht], Hupd as [He' Ht'].
        destruct w1 as [s1 tr1]; simpl in *. subst.
        rewrite He, Ht. reflexivity.
      - apply ret_Ret_inv in Hchain as [_ <-]. reflexivity. }
    subst w1.
    apply bind_Ret_inv in H as ([cleanup' pErr'] & w2 & Hcall & H).
    apply call_Ret_inv in Hcall. destruct Hcall as [Hcall Htr].
    apply bind_Ret_inv in H as (u' & w3 & Hemit & H).
    apply emit_Ret_inv in Hemit. destruct Hemit as [He Ht].
    exists args, h, pErr'.
    assert (c = cleanup' /\ res = residual (Error_Index pErr) pErr'
            /\ w' = w3) as (-> & -> & ->).
    { unfold residual. destruct pErr' as [e |].
      - destruct (isAmbiguousResultError (GoError e));
          apply ret_Ret_inv in H as [H ->]; inversion H; auto.
      - apply ret_Ret_inv in H as [H ->]; inversion H; auto. }
    rewrite He, Ht, Htr. auto.
Qed.

Lemma handleIndeterminateCommitError_Ret_inv
      (ba : BatchRequest) (pErr : Error) (t : IndeterminateCommitError)
      (w : World S) (res : option Error) (w' : World S) :
  handleIndeterminateCommitError r ba pErr t w = Ret res w' ->
  (DontRecoverIndeterminateCommits (TestingKnobs r) = true
   /\ res = Some pErr /\ w' = w)
  \/ (DontRecoverIndeterminateCommits (TestingKnobs r) = false
      /\ exists err,
          ResolveIndeterminateCommit r t (ext w) = (err, ext w')
          /\ trace w' = trace w
          /\ res = residual (Error_Index pErr) (NewError err)).
Proof.
  unfold handleIndeterminateCommitError.
  destruct (DontRecoverIndeterminateCommits (TestingKnobs r)).
  - intros H. run_inv H. auto.
  - intros H. right. split; [reflexivity |].
    run_inv H. apply call_Ret_inv in Hm. destruct Hm as [Hcall Htr].
    exists a. unfold residual.
    destruct a as [e |]; simpl in *.
    + destruct (isAmbiguousResultError e); run_inv H; auto.
    + run_inv H; auto.
Qed.

(** C3. When the intent resolver answers a write-intent conflict with an
    ambiguous-result error, or the recovery manager answers an
    indeterminate-commit conflict with one, the handler returns a nil
    residual error; and no error that either handler returns for such a
    conflict is an ambiguous-result error. *)
Theorem handlers_absorb_ambiguous_results (ba : BatchRequest) (w : World S) :
  (forall pErr t cleanup pos args h cleanup' e s,
      DontPushOnWriteIntentError (TestingKnobs r) = false ->
      Error_Index pErr = Some pos ->
      0 <= Index pos ->
      nth_error (Requests ba) (Z.to_nat (Index pos)) = Some args ->
      pushHeader (BatchRequest_Header ba) = Some h ->
      ProcessWriteIntentError
        r pErr args h (if IsWrite ba then PUSH_ABORT else PUSH_TIMESTAMP)
        (ext (chained r t cleanup w))
      = ((cleanup', Some e), s) ->
      isAmbiguousResultError (GoError e) = true ->
      handleWriteIntentError r ba pErr t cleanup w
      = Ret (cleanup', None)
            {| ext := s;
               trace := trace (chained r t cleanup w)
                        ++ [Ev_ProcessWriteIntentError cleanup'] |})
  /\ (forall pErr t cleanup c e w',
         GoError pErr = Structured (Detail_WriteIntent t) ->
         handleWriteIntentError r ba pErr t cleanup w = Ret (c, Some e) w' ->
         isAmbiguousResultError (GoError e) = false)
  /\ (forall pErr t e s,
         DontRecoverIndeterminateCommits (TestingKnobs r) = false ->
         ResolveIndeterminateCommit r t (ext w) = (Some e, s) ->
         isAmbiguousResultError e = true ->
         handleIndeterminateCommitError r ba pErr t w
         = Ret None {| ext := s; trace := trace w |})
  /\ (forall pErr t e w',
         GoError pErr = Structured (Detail_IndeterminateCommit t) ->
         handleIndeterminateCommitError r ba pErr t w = Ret (Some e) w' ->
         isAmbiguousResultError (GoError e) = false).
Proof.
  split; [| split; [| split]].
  - intros pErr t cleanup pos args h cleanup' e s
           Hknob Hidx Hpos Hnth Hh Hres Hamb.
    rewrite (handleWriteIntentError_resolved
               ba pErr t cleanup w pos args h cleanup' (Some e) s)
      by assumption.
    unfold residual. rewrite Hamb. reflexivity.
  - intros pErr t cleanup c e w' Hkind H.
    apply handleWriteIntentError_Ret_inv in H.
    destruct H as [(_ & _ & Hres & _) | (_ & args & h & pErr' & _ & _ & _ & Hres)].
    + inversion Hres; subst. rewrite Hkind. reflexivity.
    + unfold residual in Hres. destruct pErr' as [e' |]; [| discriminate].
      destruct (isAmbiguousResultError (GoError e')) eqn:Hamb;
        [discriminate |].
      inversion Hres; subst. exact Hamb.
  - intros pErr t e s Hknob Hres Hamb.
    unfold handleIndeterminateCommitError. rewrite Hknob.
    rewrite (bind_Ret _ _ _ _ _ (call_Ret _ _ _ _ Hres)).
    rewrite Hamb. reflexivity.
  - intros pErr t e w' Hkind H.
    apply handleIndeterminateCommitError_Ret_inv in H.
    destruct H as [(_ & Hres & _) | (_ & err & _ & _ & Hres)].
    + inversion Hres; subst. rewrite Hkind. reflexivity.
    + unfold residual in Hres. destruct err as [e' |]; [| discriminate].
      simpl in Hres.
      destruct (isAmbiguousResultError e') eqn:Hamb; [discriminate |].
      inversion Hres; subst. exact Hamb.
Qed.

(** C4. Every error the write-intent handler or the indeterminate-commit
    handler returns carries the index of the conflict it was called
    with. *)
Theorem handlers_preserve_error_index (ba : BatchRequest) (pErr : Error)
        (w : World S) :
  (forall t cleanup c e w',
      handleWriteIntentError r ba pErr t cleanup w = Ret (c, Some e) w' ->
      Error_Index e = Error_Index pErr)
  /\ (forall t e w',
         handleIndeterminateCommitError r ba pErr t w = Ret (Some e) w' ->
         Error_Index e = Error_Index pErr).
Proof.
  split.
  - intros t cleanup c e w' H.
    apply handleWriteIntentError_Ret_inv in H.
    destruct H as [(_ & _ & Hres & _) | (_ & args & h & pErr' & _ & _ & _ & Hres)].
    + inversion Hres; subst. reflexivity.
    + unfold residual in Hres. destruct pErr' as [e' |]; [| discriminate].
      destruct (isAmbiguousResultError (GoError e')); [discriminate |].
      inversion Hres; subst. reflexivity.
  - intros t e w' H.
    apply handleIndeterminateCommitError_Ret_inv in H.
    destruct H as [(_ & Hres & _) | (_ & err & _ & _ & Hres)].
    + inversion Hres; subst. reflexivity.
    + unfold residual in Hres. destruct err as [e' |]; [| discriminate].
      simpl in Hres.
      destruct (isAmbiguousResultError e'); [discriminate |].
      inversion Hres; subst. reflexivity.
Qed.

(** The header of the push is missing exactly when the batch carries a
    transaction without an observed timestamp of the replica's node. *)
Lemma pushHeader_None_iff (h : Header) :
  pushHeader h = None
  <-> exists txn,
      Txn h = Some txn
      /\ GetObservedTimestamp
           txn (ReplicaDescriptor_NodeID (Header_Replica h)) = None.
Proof.
  unfold pushHeader. destruct (Txn h) as [txn |].
  - destruct (GetObservedTimestamp
                txn (ReplicaDescriptor_NodeID (Header_Replica h))) eqn:Hobs.
    + split; [discriminate |].
      intros (txn' & Heq & Hnone). inversion Heq; subst. congruence.
    + split; [eauto | reflexivity].
  - split; [discriminate |]. intros (txn' & Heq & _). discriminate.
Qed.

(** C10, as the code has it.  When pushing is not disabled by the
    DontPushOnWriteIntentError knob and the index of the conflict
    addresses a request of the batch, a batch whose transaction has no
    observed timestamp for the replica's node makes the handler die in
    [log.Fatalf]; and the handler dies in [log.Fatalf] only then, so a
    recorded observed timestamp rules the fatal branch out. *)
Theorem handleWriteIntentError_fatal
        (ba : BatchRequest) (pErr : Error) (t : WriteIntentError)
        (cleanup : option CleanupFunc) (w : World S) :
  let h := BatchRequest_Header ba in
  let unobserved :=
    exists txn,
      Txn h = Some txn
      /\ GetObservedTimestamp
           txn (ReplicaDescriptor_NodeID (Header_Replica h)) = None in
  (forall pos args,
      DontPushOnWriteIntentError (TestingKnobs r) = false ->
      Error_Index pErr = Some pos ->
      0 <= Index pos ->
      nth_error (Requests ba) (Z.to_nat (Index pos)) = Some args ->
      unobserved ->
      handleWriteIntentError r ba pErr t cleanup w
      = Stop (Fatal "missing observed timestamp"))
  /\ (forall msg,
         handleWriteIntentError r ba pErr t cleanup w = Stop (Fatal msg) ->
         DontPushOnWriteIntentError (TestingKnobs r) = false /\ unobserved).
Proof.
  intros h unobserved. subst unobserved h. split.
  - intros pos args Hknob Hidx Hpos Hnth Hun.
    apply pushHeader_None_iff in Hun.
    unfold handleWriteIntentError. rewrite Hknob, Hidx.
    rewrite (bind_Ret _ _ _ _ _ (requestAt_Ret ba pos args w Hpos Hnth)).
    rewrite Hun. reflexivity.
  - intros msg. unfold handleWriteIntentError.
    destruct (DontPushOnWriteIntentError (TestingKnobs r));
      [discriminate |].
    intros H. split; [reflexivity |].
    apply pushHeader_None_iff.
    destruct (pushHeader (BatchRequest_Header ba)) as [h |];
      [exfalso | reflexivity].
    revert H. unfold bind at 1.
    destruct (requestAt ba (Error_Index pErr) w) as [args w0 | e] eqn:Hreq.
    + unfold bind, ret, call, emit.
      destruct cleanup as [c0 |]; simpl;
        match goal with
        | |- context [ProcessWriteIntentError ?r ?p ?a ?h ?pt ?s] =>
            destruct (ProcessWriteIntentError r p a h pt s)
              as [[cleanup' [e |]] s']
        end; simpl;
        try destruct (isAmbiguousResultError (GoError e));
        discriminate.
    + unfold requestAt in Hreq.
      destruct (Error_Index pErr) as [pos |].
      * destruct ((0 <=? Index pos)
                  && (Index pos <? Z.of_nat (List.length (Requests ba))));
          [ destruct (nth_error (Requests ba) (Z.to_nat (Index pos)));
            inversion Hreq; discriminate
          | inversion Hreq; discriminate ].
      * inversion Hreq; discriminate.
Qed.

End Handlers.

(* ------------------------------------------------------------------ *)
(** ** The retry loop *)

Section RetryLoop.

Context {S : Type} {helpers : Helpers} (r : Replica S).

Lemma handleWriteIntentError_emits ba pErr t cleanup :
  emitsOnly isInnerEvent (handleWriteIntentError r ba pErr t cleanup).
Proof.
  unfold handleWriteIntentError, requestAt, cleanupCall, log_Fatalf.
  emits.
Qed.

Lemma handleTransactionPushError_emits ba pErr t :
  emitsOnly isPlainEvent (handleTransactionPushError r ba pErr t).
Proof. unfold handleTransactionPushError. emits. Qed.

Lemma handleIndeterminateCommitError_emits ba pErr t :
  emitsOnly isPlainEvent (handleIndeterminateCommitError r ba pErr t).
Proof. unfold handleIndeterminateCommitError. emits. Qed.

Lemma handleMergeInProgressError_emits ba pErr :
  emitsOnly isPlainEvent (handleMergeInProgressError r ba pErr).
Proof. unfold handleMergeInProgressError, log_Event. emits. Qed.

Lemma isPlainEvent_inner ev : isPlainEvent ev = true -> isInnerEvent ev = true.
Proof. destruct ev; cbv; congruence. Qed.

Lemma retryLoop_emits fuel ba fn spans :
  forall cleanup,
    emitsOnly isInnerEvent (retryLoop r fuel ba fn spans cleanup).
Proof.
  pose proof (fun ba e t =>
                emitsOnly_weaken isInnerEvent isPlainEvent _ isPlainEvent_inner
                  (handleTransactionPushError_emits ba e t)) as Hpush.
  pose proof (fun ba e t =>
                emitsOnly_weaken isInnerEvent isPlainEvent _ isPlainEvent_inner
                  (handleIndeterminateCommitError_emits ba e t)) as Hindet.
  pose proof (fun ba e =>
                emitsOnly_weaken isInnerEvent isPlainEvent _ isPlainEvent_inner
                  (handleMergeInProgressError_emits ba e)) as Hmerge.
  pose proof handleWriteIntentError_emits as Hwi.
  induction fuel as [| fuel IH]; intros cleanup; cbn [retryLoop].
  - emits.
  - repeat first
      [ apply Hpush | apply Hindet | apply Hmerge | apply Hwi | apply IH
      | apply emitsOnly_ret
      | apply emitsOnly_gets
      | apply emitsOnly_call
      | apply emitsOnly_bind; [| intros ?]
      | progress cbv beta
      | match goal with
        | |- emitsOnly _ (match ?x with _ => _ end) => destruct x
        end ].
Qed.

Lemma deferredCleanup_emits ba res :
  emitsOnly isInnerEvent (deferredCleanup r ba res).
Proof. unfold deferredCleanup, br_Txn, cleanupCall. emits. Qed.

Lemma executeBatchWithConcurrencyRetries_emits fuel ba fn :
  emitsOnly isInnerEvent (executeBatchWithConcurrencyRetries r fuel ba fn).
Proof.
  pose proof (retryLoop_emits fuel ba fn) as Hloop.
  pose proof (deferredCleanup_emits ba) as Hdefer.
  unfold executeBatchWithConcurrencyRetries.
  destruct (collectSpans r ba) as [spans | err]; [| emits].
  apply emitsOnly_bind; [emits | intros ?].
  apply emitsOnly_bind; [apply Hloop | intros ?].
  apply emitsOnly_bind; [apply Hdefer | intros ?].
  emits.
Qed.

Lemma adminCommand_emits ba args command :
  adminCommand r ba args = Some command -> emitsOnly isInnerEvent command.
Proof.
  unfold adminCommand.
  destruct args; intros H; inversion H; subst; emits.
Qed.

Lemma executeAdminBatch_emits ba :
  emitsOnly isInnerEvent (executeAdminBatch r ba).
Proof.
  unfold executeAdminBatch.
  destruct (negb (Nat.eqb (List.length (Requests ba)) 1)); [emits |].
  apply emitsOnly_bind; [emits | intros args].
  apply emitsOnly_bind; [emits | intros ?].
  apply emitsOnly_bind; [emits | intros [status pErr]].
  destruct pErr; [emits |].
  apply emitsOnly_bind; [emits | intros err].
  destruct err; [emits |].
  destruct (adminCommand r ba args) as [command |] eqn:Hcmd; [| emits].
  apply emitsOnly_bind; [eapply adminCommand_emits; eassumption |].
  intros [resp pErr]. emits.
Qed.

(** C1. Once the executor has run in an iteration: a nil error ends the
    loop with the executor's response; each of the four conflict kinds
    goes to its handler, whose error ends the loop and whose nil result
    starts the next iteration; an error of any other kind ends the loop
    at once, in the state the executor left, with that error. *)
Theorem retryLoop_dispatch
        (fuel : nat) (ba : BatchRequest) (fn : batchExecutionFn S)
        (spans : SpanSet) (cleanup : option CleanupFunc) (w : World S)
        (s1 s2 s3 : S) (lg : Guard)
        (br : option BatchResponse) (pErr : option Error) :
  ctx_Err r (ext w) = None ->
  maybeWaitForPushee r ba (ext w) = ((None, None), s1) ->
  beginCmds r ba spans s1 = (inl lg, s2) ->
  fn ba spans lg s2 = ((br, pErr), s3) ->
  let w3 := {| ext := s3; trace := trace w |} in
  let loop := retryLoop r (Datatypes.S fuel) ba fn spans cleanup w in
  let retry := retryLoop r fuel ba fn spans in
  (GetDetail pErr = None -> loop = Ret (cleanup, (br, None)) w3)
  /\ (forall e,
         pErr = Some e -> isConflictError (GoError e) = false ->
         loop = Ret (cleanup, (None, Some e)) w3)
  /\ (forall e t,
         pErr = Some e -> GoError e = Structured (Detail_WriteIntent t) ->
         (forall c e' w4,
             handleWriteIntentError r ba e t cleanup w3
             = Ret (c, Some e') w4 ->
             loop = Ret (c, (None, Some e')) w4)
         /\ (forall c w4,
                handleWriteIntentError r ba e t cleanup w3
                = Ret (c, None) w4 ->
                loop = retry c w4))
  /\ (forall e t,
         pErr = Some e -> GoError e = Structured (Detail_TransactionPush t) ->
         (forall e' w4,
             handleTransactionPushError r ba e t w3 = Ret (Some e') w4 ->
             loop = Ret (cleanup, (None, Some e')) w4)
         /\ (forall w4,
                handleTransactionPushError r ba e t w3 = Ret None w4 ->
                loop = retry cleanup w4))
  /\ (forall e t,
         pErr = Some e ->
         GoError e = Structured (Detail_IndeterminateCommit t) ->
         (forall e' w4,
             handleIndeterminateCommitError r ba e t w3 = Ret (Some e') w4 ->
             loop = Ret (cleanup, (None, Some e')) w4)
         /\ (forall w4,
                handleIndeterminateCommitError r ba e t w3 = Ret None w4 ->
                loop = retry cleanup w4))
  /\ (forall e,
         pErr = Some e -> GoError e = Structured Detail_MergeInProgress ->
         (forall e' w4,
             handleMergeInProgressError r ba e w3 = Ret (Some e') w4 ->
             loop = Ret (cleanup, (None, Some e')) w4)
         /\ (forall w4,
                handleMergeInProgressError r ba e w3 = Ret None w4 ->
                loop = retry cleanup w4)).
Proof.
  intros Hctx Hwait Hlatch Hexec w3 loop retry.
  assert (Hloop :
            loop
            = match pErr with
              | None => ret (cleanup, (br, None))
              | Some e =>
                  match GoError e with
                  | Structured (Detail_WriteIntent t) =>
                      bind (handleWriteIntentError r ba e t cleanup)
                           (fun '(cleanup, pErr) =>
                              match pErr with
                              | Some _ => ret (cleanup, (None, pErr))
                              | None => retry cleanup
                              end)
                  | Structured (Detail_TransactionPush t) =>
                      bind (handleTransactionPushError r ba e t)
                           (fun pErr =>
                              match pErr with
                              | Some _ => ret (cleanup, (None, pErr))
                              | None => retry cleanup
                              end)
                  | Structured (Detail_IndeterminateCommit t) =>
                      bind (handleIndeterminateCommitError r ba e t)
                           (fun pErr =>
                              match pErr with
                              | Some _ => ret (cleanup, (None, pErr))
                              | None => retry cleanup
                              end)
                  | Structured Detail_MergeInProgress =>
                      bind (handleMergeInProgressError r ba e)
                           (fun pErr =>
                              match pErr with
                              | Some _ => ret (cleanup, (None, pErr))
                              | None => retry cleanup
                              end)
                  | _ => ret (cleanup, (None, pErr))
                  end
              end w3).
  { subst loop retry w3. cbn [retryLoop].
    unfold bind at 1. unfold gets at 1. rewrite Hctx.
    rewrite (bind_Ret _ _ _ _ _ (call_Ret _ _ _ _ Hwait)).
    cbn [isSome orb].
    rewrite (bind_Ret _ _ _ _ _
               (call_Ret _ {| ext := s1; trace := trace w |} _ _ Hlatch)).
    cbv beta iota.
    rewrite (bind_Ret _ _ _ _ _
               (call_Ret _ {| ext := s2; trace := trace w |} _ _ Hexec)).
    reflexivity. }
  rewrite Hloop. clear Hloop.
  split; [| split; [| split; [| split; [| split]]]].
  - intros Hnil. apply GetDetail_nil in Hnil. subst pErr. reflexivity.
  - intros e -> Hkind.
    destruct (GoError e) as [[ | | | | | | ] | |]; simpl in Hkind;
      try discriminate; reflexivity.
  - intros e t -> ->. split.
    + intros c e' w4 H. rewrite (bind_Ret _ _ _ _ _ H). reflexivity.
    + intros c w4 H. rewrite (bind_Ret _ _ _ _ _ H). reflexivity.
  - intros e t -> ->. split.
    + intros e' w4 H. rewrite (bind_Ret _ _ _ _ _ H). reflexivity.
    + intros w4 H. rewrite (bind_Ret _ _ _ _ _ H). reflexivity.
  - intros e t -> ->. split.
    + intros e' w4 H. rewrite (bind_Ret _ _ _ _ _ H). reflexivity.
    + intros w4 H. rewrite (bind_Ret _ _ _ _ _ H). reflexivity.
  - intros e -> ->. split.
    + intros e' w4 H. rewrite (bind_Ret _ _ _ _ _ H). reflexivity.
    + intros w4 H. rewrite (bind_Ret _ _ _ _ _ H). reflexivity.
Qed.

(** **** Cleanup closures: obtained and called *)

Lemma isPlainEvent_not_acquire ev : isPlainEvent ev = true -> isAcquire ev = false.
Proof. destruct ev; cbv; congruence. Qed.

Lemma isPlainEvent_not_cleanup ev :
  isPlainEvent ev = true -> isCleanupCall ev = false.
Proof. destruct ev; cbv; congruence. Qed.

(** A computation of plain events leaves both counts as they are. *)
Lemma plain_counts {A} (m : M S A) w a w' :
  emitsOnly isPlainEvent m -> m w = Ret a w' ->
  acquired (trace w') = acquired (trace w)
  /\ released (trace w') = released (trace w).
Proof.
  intros Hm H. unfold acquired, released. split.
  - exact (emitsOnly_count isPlainEvent isAcquire m w a w'
             isPlainEvent_not_acquire Hm H).
  - exact (emitsOnly_count isPlainEvent isCleanupCall m w a w'
             isPlainEvent_not_cleanup Hm H).
Qed.

(** The write-intent handler calls the closure it was given, if any, and
    obtains the one it returns, if any (or keeps what it was given). *)
Lemma handleWriteIntentError_balance ba pErr t cleanup w c res w' :
  handleWriteIntentError r ba pErr t cleanup w = Ret (c, res) w' ->
  (released (trace w') + acquired (trace w) + held c
   = acquired (trace w') + released (trace w) + held cleanup)%nat.
Proof.
  intros H. apply handleWriteIntentError_Ret_inv in H.
  destruct H as [(_ & -> & _ & ->) | (_ & args & h & pErr' & _ & _ & Htr & _)].
  - lia.
  - unfold acquired, released. rewrite Htr, !count_app.
    destruct cleanup as [c0 |], c as [c1 |]; simpl;
      rewrite ?count_app; cbn; lia.
Qed.

Lemma retryLoop_balance fuel ba fn spans :
  forall cleanup w c res w',
    retryLoop r fuel ba fn spans cleanup w = Ret (c, res) w' ->
    (released (trace w') + acquired (trace w) + held c
     = acquired (trace w') + released (trace w) + held cleanup)%nat.
Proof.
  induction fuel as [| fuel IH]; intros cleanup w c res w' H;
    [discriminate |].
  cbn [retryLoop] in H.
  apply bind_Ret_inv in H as (err & w0 & Hctx & H).
  apply gets_Ret_inv in Hctx as [-> ->].
  destruct (ctx_Err r (ext w)).
  { apply ret_Ret_inv in H as [Heq <-]. inversion Heq; subst. lia. }
  apply bind_Ret_inv in H as ([br0 pErr0] & w1 & Hwait & H).
  apply call_Ret_inv in Hwait as [_ Htr1].
  destruct (isSome br0 || isSome pErr0).
  { apply ret_Ret_inv in H as [Heq <-]. inversion Heq; subst.
    rewrite Htr1. lia. }
  apply bind_Ret_inv in H as (lg & w2 & Hlatch & H).
  apply call_Ret_inv in Hlatch as [_ Htr2].
  destruct lg as [lg | err].
  2:{ apply ret_Ret_inv in H as [Heq <-]. inversion Heq; subst.
      rewrite Htr2, Htr1. lia. }
  apply bind_Ret_inv in H as ([br1 pErr1] & w3 & Hexec & H).
  apply call_Ret_inv in Hexec as [_ Htr3].
  assert (Htr : trace w3 = trace w) by congruence.
  clear Htr1 Htr2 Htr3.
  assert (Hplain :
            forall (m : M S (option Error)) ,
              emitsOnly isPlainEvent m ->
              bind m (fun pErr =>
                        match pErr with
                        | Some _ => ret (cleanup, (None, pErr))
                        | None => retryLoop r fuel ba fn spans cleanup
                        end) w3 = Ret (c, res) w' ->
              (released (trace w') + acquired (trace w) + held c
               = acquired (trace w') + released (trace w) + held cleanup)%nat).
  { intros m Hm Hrun.
    apply bind_Ret_inv in Hrun as (pErr2 & w4 & Hh & Hrun).
    destruct (plain_counts m w3 pErr2 w4 Hm Hh) as [Ha Hr].
    rewrite Htr in Ha, Hr.
    destruct pErr2.
    - apply ret_Ret_inv in Hrun as [Heq <-]. inversion Heq; subst. lia.
    - apply IH in Hrun. lia. }
  destruct pErr1 as [e |].
  2:{ apply ret_Ret_inv in H as [Heq <-]. inversion Heq; subst.
      rewrite Htr. lia. }
  destruct (GoError e) as [[t | t | t | | msg | | name] | msg | cause msg].
  - apply bind_Ret_inv in H as ([c1 pErr2] & w4 & Hh & H).
    apply handleWriteIntentError_balance in Hh. rewrite Htr in Hh.
    destruct pErr2.
    + apply ret_Ret_inv in H as [Heq <-]. inversion Heq; subst. lia.
    + apply IH in H. lia.
  - exact (Hplain _ (handleTransactionPushError_emits ba e t) H).
  - exact (Hplain _ (handleIndeterminateCommitError_emits ba e t) H).
  - exact (Hplain _ (handleMergeInProgressError_emits ba e) H).
  - apply ret_Ret_inv in H as [Heq <-]. inversion Heq; subst.
    rewrite Htr. lia.
  - apply ret_Ret_inv in H as [Heq <-]. inversion Heq; subst.
    rewrite Htr. lia.
  - apply ret_Ret_inv in H as [Heq <-]. inversion Heq; subst.
    rewrite Htr. lia.
  - apply ret_Ret_inv in H as [Heq <-]. inversion Heq; subst.
    rewrite Htr. lia.
  - apply ret_Ret_inv in H as [Heq <-]. inversion Heq; subst.
    rewrite Htr. lia.
Qed.

(** What the deferred closure does with the cleanup closure it holds. *)
Lemma cleanupCall_Ret c t meta (w : World S) :
  cleanupCall r c t meta w
  = Ret tt {| ext := runCleanup r c t meta (ext w);
              trace := trace w ++ [Ev_cleanup c t meta] |}.
Proof. reflexivity. Qed.



(** **** The response filter *)

Section ResponseFilter.

Variable filter :
  BatchRequest -> option BatchResponse -> Ext S (option Error).

Lemma isInnerEvent_not_filter ev :
  isInnerEvent ev = true -> isFilterCall ev = false.
Proof. unfold isInnerEvent. destruct (isFilterCall ev); auto. Qed.

Lemma respondsThroughFilter_error br e :
  respondsThroughFilter (S := S) filter (ret (br, Some e)).
Proof.
  intros w br' pErr w' H. apply ret_Ret_inv in H as [Heq <-].
  inversion Heq; subst. right. split; [reflexivity | discriminate].
Qed.

Lemma respondsThroughFilter_bind {A} (m : M S A) k :
  emitsOnly isInnerEvent m ->
  (forall a, respondsThroughFilter filter (k a)) ->
  respondsThroughFilter filter (bind m k).
Proof.
  intros Hm Hk w br pErr w' H.
  apply bind_Ret_inv in H as (a & w1 & H1 & H2).
  apply Hm in H1 as (tr1 & Htr1 & Hall).
  pose proof (count_none isFilterCall isInnerEvent tr1
                isInnerEvent_not_filter Hall) as Hnone.
  apply Hk in H2 as [(ba & tr & s & Htr & Hcount & Hf) | (Hcount & Herr)].
  - left. exists ba, (tr1 ++ tr), s.
    rewrite Htr, Htr1, <- !app_assoc, count_app, Hnone, Hcount. auto.
  - right. rewrite Hcount, Htr1, count_app, Hnone. split; [lia | assumption].
Qed.

Lemma respondsThroughFilter_respond ba br pErr :
  TestingResponseFilter (TestingKnobs r) = Some filter ->
  respondsThroughFilter filter (respond r ba br pErr).
Proof.
  intros Hfilter w br' pErr' w' H. unfold respond in H.
  destruct pErr as [e |].
  - apply bind_Ret_inv in H as (u & w1 & Hlog & H).
    apply emit_Ret_inv in Hlog as [_ Htr].
    apply ret_Ret_inv in H as [Heq <-]. inversion Heq; subst.
    right. rewrite Htr, count_app. cbn. split; [lia | discriminate].
  - rewrite Hfilter in H.
    apply bind_Ret_inv in H as (u & w1 & Hemit & H).
    apply emit_Ret_inv in Hemit as [Hext Htr].
    apply bind_Ret_inv in H as (pErr1 & w2 & Hcall & H).
    apply call_Ret_inv in Hcall as [Hcall Htr2].
    apply ret_Ret_inv in H as [Heq <-]. inversion Heq; subst.
    left. exists ba, [], (ext w1). rewrite Htr2, Htr. auto.
Qed.

(** C7, as the code has it.  With a response filter installed: when the
    branch returns no error, the filter is called on the batch and the
    branch's response, and what it returns is the error of the call;
    when the branch returns an error, the filter is not called and the
    error is returned.  So whenever [sendWithRangeID] returns, either
    the filter was called once, last, on the response returned, or it
    was not called and an error is returned. *)
Theorem response_filter_on_success :
  TestingResponseFilter (TestingKnobs r) = Some filter ->
  (forall ba br w,
      respond r ba br None w
      = Ret (br, fst (filter ba br (ext w)))
            {| ext := snd (filter ba br (ext w));
               trace := trace w ++ [Ev_TestingResponseFilter ba br] |})
  /\ (forall ba br e w,
         respond r ba br (Some e) w
         = Ret (br, Some e)
               {| ext := ext w;
                  trace := trace w ++ [Ev_log "replica.Send got error"] |})
  /\ (forall fuel rangeID ba,
         respondsThroughFilter filter (sendWithRangeID r fuel rangeID ba)).
Proof.
  intros Hfilter. split; [| split].
  - intros ba br w. unfold respond. rewrite Hfilter.
    unfold bind, emit, call, ret. simpl.
    destruct (filter ba br (ext w)). reflexivity.
  - intros ba br e w. reflexivity.
  - intros fuel rangeID ba. unfold sendWithRangeID.
    pose proof (executeBatchWithConcurrencyRetries_emits fuel) as Hexec.
    pose proof executeAdminBatch_emits as Hadmin.
    apply respondsThroughFilter_bind; [emits | intros _].
    apply respondsThroughFilter_bind; [emits | intros _].
    destruct (checkBatchRequest ba (IsReadOnly ba)) as [err |];
      [apply respondsThroughFilter_error |].
    apply respondsThroughFilter_bind; [emits | intros err].
    destruct err as [err |]; [apply respondsThroughFilter_error |].
    destruct (maybeStripInFlightWrites ba) as [ba' | err];
      [| apply respondsThroughFilter_error].
    apply respondsThroughFilter_bind; [emits | intros pErr].
    destruct pErr as [e |]; [apply respondsThroughFilter_error |].
    apply respondsThroughFilter_bind.
    + unfold log_Event, log_Fatalf.
      repeat first
        [ apply Hexec | apply Hadmin
        | apply emitsOnly_stop
        | apply emitsOnly_emit; reflexivity
        | apply emitsOnly_bind; [| intros ?]
        | match goal with
          | |- emitsOnly _ (if ?x then _ else _) => destruct x
          end ].
    + intros [br pErr]. apply respondsThroughFilter_respond.
      assumption.
Qed.

End ResponseFilter.

End RetryLoop.

(* ------------------------------------------------------------------ *)
(** ** The code on concrete inputs *)

Module Runs.

Import Scripted.

(** A batch without a timestamp is refused. *)
Lemma checkBatchRequest_error_iff_witness :
  exists err,
    checkBatchRequest
      {| BatchRequest_Header :=
           {| Timestamp := hlc.zero;
              Header_Replica := {| ReplicaDescriptor_NodeID := 1 |};
              Txn := None;
              ReadConsistency := CONSISTENT;
              GatewayNodeID := 1;
              ReturnRangeInfo := false |};
         Requests := [get] |}
      true
    = Some err.
Proof.
  apply (proj1 (checkBatchRequest_error_iff _ true)).
  left. reflexivity.
Defined.

(** A split and a merge in one admin batch. *)
Lemma executeAdminBatch_rejects_multi_witness :
  (1 < List.length (Requests (batch None [AdminSplitRequest;
                                          AdminMergeRequest])))%nat
  /\ executeAdminBatch plain
       (batch None [AdminSplitRequest; AdminMergeRequest]) (start [])
     = Ret (None,
            Some {| GoError :=
                      errors_New "only single-element admin batches allowed";
                    Error_Index := None |})
           (start []).
Proof.
  split; [simpl; lia |].
  apply executeAdminBatch_rejects_multi.
  simpl. lia.
Defined.

(** A failed push met by a Put: the pushee is enqueued. *)
Lemma handleTransactionPushError_decision_witness :
  handleTransactionPushError (helpers := helpers) plain
    (batch (Some txn1) [put]) pushFailed pushErr (start [])
  = Ret None {| ext := []; trace := [Ev_Enqueue txn2] |}.
Proof.
  apply (proj2 (handleTransactionPushError_decision
                  (helpers := helpers) plain
                  (batch (Some txn1) [put]) pushFailed pushErr (start []))).
  reflexivity.
Defined.

(** A merge wait that the context ends. *)
Lemma handleMergeInProgressError_outcomes_witness :
  handleMergeInProgressError
    (replica noKnobs (None, None) None (Some (MergeCompleteCh_of 0)) CtxDone
             (Some (errors_New "context canceled")))
    (batch None [get]) mergeInProgress (start [])
  = Ret (Some {| GoError :=
                   errors_Wrap (errors_New "context canceled")
                               "aborted during merge";
                 Error_Index := None |})
        {| ext := [];
           trace := [Ev_log "waiting on in-progress merge"] |}.
Proof.
  apply (proj1 (proj2 (proj2
           (handleMergeInProgressError_outcomes
              (replica noKnobs (None, None) None
                       (Some (MergeCompleteCh_of 0)) CtxDone
                       (Some (errors_New "context canceled")))
              (batch None [get]) mergeInProgress (start []))))
           (MergeCompleteCh_of 0));
    reflexivity.
Defined.

Lemma handlers_absorb_ambiguous_results_witness :
  handleWriteIntentError (helpers := helpers) ambiguousResolver
    (batch (Some txn1) [put]) writeIntent wiErr None (start [])
  = Ret (Some 1%nat, None)
        {| ext := [];
           trace := [Ev_ProcessWriteIntentError (Some 1%nat)] |}.
Proof.
  refine (proj1 (handlers_absorb_ambiguous_results
                   (helpers := helpers) ambiguousResolver
                   (batch (Some txn1) [put]) (start []))
                writeIntent wiErr None {| Index := 0 |} put
                {| Timestamp := ts 12;
                   Header_Replica := {| ReplicaDescriptor_NodeID := 1 |};
                   Txn := Some txn1;
                   ReadConsistency := CONSISTENT;
                   GatewayNodeID := 1;
                   ReturnRangeInfo := false |}
                (Some 1%nat) (errorAt ambiguous 3) []
                _ _ _ _ _ _ _);
    reflexivity.
Defined.

Lemma handlers_preserve_error_index_witness :
  Error_Index (setIndex (errorAt (errors_New "push failed") 7)
                        (Some {| Index := 0 |}))
  = Error_Index writeIntent.
Proof.
  refine (proj1 (handlers_preserve_error_index
                   (helpers := helpers) failingResolver
                   (batch (Some txn1) [put]) writeIntent (start []))
                wiErr None None _
                {| ext := [];
                   trace := [Ev_ProcessWriteIntentError None] |} _).
  reflexivity.
Defined.

(** A transaction that never observed node 1 meets a write intent. *)
Lemma handleWriteIntentError_fatal_witness :
  handleWriteIntentError (helpers := helpers) plain
    (batch (Some txn1_unobserved) [put]) writeIntent wiErr None (start [])
  = Stop (Fatal "missing observed timestamp").
Proof.
  refine (proj1 (handleWriteIntentError_fatal
                   (helpers := helpers) plain
                   (batch (Some txn1_unobserved) [put]) writeIntent wiErr
                   None (start []))
                {| Index := 0 |} put _ _ _ _ _);
    try reflexivity.
  exists txn1_unobserved. split; reflexivity.
Defined.

(** C10, as stated, fails under the DontPushOnWriteIntentError knob: the
    batch carries a transaction without an observed timestamp for node 1,
    and the handler returns the conflict instead of dying. *)
Lemma handleWriteIntentError_knob_returns :
  Txn (BatchRequest_Header (batch (Some txn1_unobserved) [put]))
  = Some txn1_unobserved
  /\ GetObservedTimestamp txn1_unobserved 1 = None
  /\ handleWriteIntentError (helpers := helpers)
       (withKnobs (knobs true false false None))
       (batch (Some txn1_unobserved) [put]) writeIntent wiErr None
       (start [])
     = Ret (None, Some writeIntent) (start []).
Proof. repeat split. Qed.

(** One write-intent conflict, resolved, then success: the loop retries
    once and returns the executor's response. *)
Lemma retryLoop_dispatch_witness :
  retryLoop (helpers := helpers) plain 2 (batch (Some txn1) [put]) executor
            (SpanSet_of 0) None (start [(None, Some writeIntent)])
  = Ret (Some 1%nat, (Some (okResponse (Some txn1)), None))
        {| ext := [];
           trace := [Ev_ProcessWriteIntentError (Some 1%nat)] |}.
Proof.
  destruct (retryLoop_dispatch
              (helpers := helpers) plain 1 (batch (Some txn1) [put])
              executor (SpanSet_of 0) None
              (start [(None, Some writeIntent)])
              [(None, Some writeIntent)] [(None, Some writeIntent)] []
              (Guard_of 0) None (Some writeIntent)
              eq_refl eq_refl eq_refl eq_refl)
    as (_ & _ & Hwi & _).
  destruct (Hwi writeIntent wiErr eq_refl eq_refl) as [_ Hretry].
  rewrite (Hretry (Some 1%nat)
                  {| ext := [];
                     trace := [Ev_ProcessWriteIntentError (Some 1%nat)] |}
                  eq_refl).
  reflexivity.
Defined.



(** A filter that rewrites a successful Get into an error. *)
Lemma response_filter_on_success_witness :
  respond (withKnobs (knobs false false false (Some injectFilter)))
          (batch None [get]) (Some (okResponse None)) None (start [])
  = Ret (Some (okResponse None), Some injected)
        {| ext := [];
           trace := [Ev_TestingResponseFilter
                       (batch None [get]) (Some (okResponse None))] |}.
Proof.
  apply (proj1 (response_filter_on_success
                  (helpers := helpers)
                  (withKnobs (knobs false false false (Some injectFilter)))
                  injectFilter eq_refl)).
Defined.

(** C7, as stated, fails when the branch returns an error: a Get is
    dispatched on the read-only path, the executor answers with a
    NotLeaseHolderError, and [Send] returns it without one call of the
    installed filter. *)
Lemma response_filter_skipped_on_error :
  let r := withKnobs (knobs false false false (Some passFilter)) in
  let w' := {| ext := [];
               trace := [Ev_log "read-only path";
                         Ev_log "replica.Send got error"] |} in
  TestingResponseFilter (TestingKnobs r) = Some passFilter
  /\ Send (helpers := helpers) r 1 (batch None [get])
          (start [(None, Some notLeaseHolder)])
     = Ret (None, Some notLeaseHolder) w'
  /\ count isFilterCall (trace w') = 0%nat.
Proof. repeat split. Qed.

End Runs.

(* ------------------------------------------------------------------ *)
(** ** The limit on a transaction's max timestamp *)

Lemma hlc_Less_irrefl (t : hlc.Timestamp) : hlc.Less t t = false.
Proof.
  unfold hlc.Less. rewrite Z.ltb_irrefl, Z.eqb_refl, Z.ltb_irrefl.
  reflexivity.
Qed.

Lemma hlc_Less_true (t s : hlc.Timestamp) :
  hlc.Less t s = true
  <-> (hlc.WallTime t < hlc.WallTime s
       \/ (hlc.WallTime t = hlc.WallTime s /\ hlc.Logical t < hlc.Logical s)).
Proof.
  unfold hlc.Less.
  rewrite orb_true_iff, andb_true_iff, !Z.ltb_lt, Z.eqb_eq. reflexivity.
Qed.

Lemma hlc_Less_false (t s : hlc.Timestamp) :
  hlc.Less t s = false
  <-> (hlc.WallTime s < hlc.WallTime t
       \/ (hlc.WallTime t = hlc.WallTime s /\ hlc.Logical s <= hlc.Logical t)).
Proof.
  destruct (hlc.Less t s) eqn:H.
  - apply hlc_Less_true in H. split; [discriminate | lia].
  - split; [intros _ | reflexivity].
    assert (Hn : ~ (hlc.WallTime t < hlc.WallTime s
                    \/ (hlc.WallTime t = hlc.WallTime s
                        /\ hlc.Logical t < hlc.Logical s))).
    { intros Hlt. apply hlc_Less_true in Hlt. congruence. }
    lia.
Qed.

Lemma hlc_Less_asym (t s : hlc.Timestamp) :
  hlc.Less t s = true -> hlc.Less s t = false.
Proof. rewrite hlc_Less_true, hlc_Less_false. lia. Qed.

Lemma hlc_Less_trans_false (t s u : hlc.Timestamp) :
  hlc.Less t s = false -> hlc.Less s u = false -> hlc.Less t u = false.
Proof. rewrite !hlc_Less_false. lia. Qed.

Lemma hlc_Forward_lower (t s : hlc.Timestamp) :
  hlc.Less (hlc.Forward t s) t = false /\ hlc.Less (hlc.Forward t s) s = false.
Proof.
  unfold hlc.Forward. destruct (hlc.Less t s) eqn:H.
  - split; [apply hlc_Less_asym; assumption | apply hlc_Less_irrefl].
  - split; [apply hlc_Less_irrefl | assumption].
Qed.

Section LimitTxnMaxTimestamp.

Context {S : Type}.

(** The run of [limitTxnMaxTimestamp] on a transaction that observed the
    node. *)
Lemma limitTxnMaxTimestamp_observed
      (nodeID : NodeID) (t : TimedTransaction) (status : storagepb.LeaseStatus)
      (obsTS : hlc.Timestamp) (w : World S) :
  GetObservedTimestamp (Timed_Txn t) nodeID = Some obsTS ->
  let limit := observedLimit obsTS status in
  limitTxnMaxTimestamp nodeID (Some t) status w
  = if hlc.Less limit (MaxTimestamp t) then
      Ret (Some {| Timed_Txn := Timed_Txn t;
                   ReadTimestamp := ReadTimestamp t;
                   MaxTimestamp := limit |})
          (if hlc.Less (ReadTimestamp t) limit then w
           else {| ext := ext w;
                   trace := trace w
                            ++ [Ev_log "read has no clock uncertainty"] |})
    else Ret (Some t) w.
Proof.
  intros Hobs limit. subst limit.
  unfold limitTxnMaxTimestamp, observedLimit. rewrite Hobs.
  set (limit := match storagepb.State status with
                | storagepb.LeaseState_VALID =>
                    hlc.Forward obsTS (storagepb.Lease_Start status)
                | _ => obsTS
                end).
  destruct (hlc.Less limit (MaxTimestamp t)) eqn:Hlt; [| reflexivity].
  unfold hlc.Backward. rewrite Hlt. unfold Clone.
  destruct (hlc.Less (ReadTimestamp t) limit); simpl.
  - destruct w; reflexivity.
  - reflexivity.
Qed.

(** X1. [limitTxnMaxTimestamp] always returns and only ever lowers the max
    timestamp: the transaction, its read timestamp and the collaborators'
    state stay as they are, the new max timestamp is not above the old one,
    and without a transaction or without an observed timestamp for the
    node nothing changes at all. *)
Theorem limitTxnMaxTimestamp_only_lowers
        (nodeID : NodeID) (txn : option TimedTransaction)
        (status : storagepb.LeaseStatus) (w : World S) :
  exists txn' w',
    limitTxnMaxTimestamp nodeID txn status w = Ret txn' w'
    /\ ext w' = ext w
    /\ match txn, txn' with
       | None, None => w' = w
       | Some t, Some t' =>
           Timed_Txn t' = Timed_Txn t
           /\ ReadTimestamp t' = ReadTimestamp t
           /\ hlc.Less (MaxTimestamp t) (MaxTimestamp t') = false
           /\ (GetObservedTimestamp (Timed_Txn t) nodeID = None ->
               t' = t /\ w' = w)
       | _, _ => False
       end.
Proof.
  destruct txn as [t |].
  2:{ exists None, w. simpl. auto. }
  destruct (GetObservedTimestamp (Timed_Txn t) nodeID) as [obsTS |] eqn:Hobs.
  2:{ exists (Some t), w. unfold limitTxnMaxTimestamp. rewrite Hobs.
      repeat split; auto using hlc_Less_irrefl. }
  rewrite (limitTxnMaxTimestamp_observed nodeID t status obsTS w Hobs).
  destruct (hlc.Less (observedLimit obsTS status) (MaxTimestamp t)) eqn:Hlt.
  - eexists _, _. split; [reflexivity |]. simpl.
    split; [destruct (hlc.Less (ReadTimestamp t) (observedLimit obsTS status));
            reflexivity |].
    repeat split; auto using hlc_Less_asym; discriminate.
  - exists (Some t), w. repeat split; auto using hlc_Less_irrefl.
Qed.


(** X3. [limitTxnMaxTimestamp] is idempotent: run again on its own result,
    under the same lease status, it changes nothing and logs nothing. *)
Theorem limitTxnMaxTimestamp_idempotent
        (nodeID : NodeID) (txn txn' : option TimedTransaction)
        (status : storagepb.LeaseStatus) (w w' : World S) :
  limitTxnMaxTimestamp nodeID txn status w = Ret txn' w' ->
  forall w'' : World S,
    limitTxnMaxTimestamp nodeID txn' status w'' = Ret txn' w''.
Proof.
  intros Hrun w''.
  destruct txn as [t |].
  2:{ inversion Hrun; subst. reflexivity. }
  destruct (GetObservedTimestamp (Timed_Txn t) nodeID) as [obsTS |] eqn:Hobs.
  2:{ unfold limitTxnMaxTimestamp in Hrun. rewrite Hobs in Hrun.
      inversion Hrun; subst.
      unfold limitTxnMaxTimestamp. rewrite Hobs. reflexivity. }
  rewrite (limitTxnMaxTimestamp_observed nodeID t status obsTS w Hobs) in Hrun.
  destruct (hlc.Less (observedLimit obsTS status) (MaxTimestamp t)) eqn:Hlt;
    inversion Hrun; subst.
  - match goal with
    | |- limitTxnMaxTimestamp _ (Some ?x) _ _ = _ =>
        rewrite (limitTxnMaxTimestamp_observed nodeID x status obsTS w'' Hobs)
    end.
    simpl. rewrite hlc_Less_irrefl. reflexivity.
  - rewrite (limitTxnMaxTimestamp_observed nodeID t status obsTS w'' Hobs).
    rewrite Hlt. reflexivity.
Qed.

(** X4. [limitTxnMaxTimestamp] logs "read has no clock uncertainty" exactly
    when it lowers the max timestamp to a limit that the read timestamp is
    not below; the uncertainty window from the read timestamp to the new
    max timestamp is then empty. *)
Theorem limitTxnMaxTimestamp_no_uncertainty
        (nodeID : NodeID) (t t' : TimedTransaction)
        (status : storagepb.LeaseStatus) (obsTS : hlc.Timestamp)
        (w w' : World S) :
  GetObservedTimestamp (Timed_Txn t) nodeID = Some obsTS ->
  limitTxnMaxTimestamp nodeID (Some t) status w = Ret (Some t') w' ->
  let limit := observedLimit obsTS status in
  let logged := trace w' = trace w ++ [Ev_log "read has no clock uncertainty"] in
  (logged
   <-> (hlc.Less limit (MaxTimestamp t) = true
        /\ hlc.Less (ReadTimestamp t) limit = false))
  /\ (logged -> hlc.Less (ReadTimestamp t') (MaxTimestamp t') = false)
  /\ (~ logged -> w' = w).
Proof.
  intros Hobs Hrun limit logged. subst logged.
  rewrite (limitTxnMaxTimestamp_observed nodeID t status obsTS w Hobs) in Hrun.
  fold limit in Hrun.
  assert (Hnil : forall ev : Event, trace w <> trace w ++ [ev]).
  { intros ev Heq. apply (f_equal (@List.length Event)) in Heq.
    rewrite length_app in Heq. simpl in Heq. lia. }
  destruct (hlc.Less limit (MaxTimestamp t)) eqn:Hlt.
  - destruct (hlc.Less (ReadTimestamp t) limit) eqn:Hread;
      inversion Hrun; subst; simpl.
    + split; [split; [intros H; elim (Hnil _ H) | intros [_ H]; discriminate] |].
      split; [intros H; elim (Hnil _ H) | reflexivity].
    + split; [split; auto |]. split; [auto |].
      intros H. elim H. reflexivity.
  - inversion Hrun; subst.
    split; [split; [intros H; elim (Hnil _ H) | intros [H _]; discriminate] |].
    split; [intros H; elim (Hnil _ H) | reflexivity].
Qed.

End LimitTxnMaxTimestamp.

(* ------------------------------------------------------------------ *)
(** ** Span collection *)

Section CollectSpansProofs.

Context {helpers : Helpers} {decl : SpanDeclarations}.

Let registered (req : Request) : Prop := LookupCommand (Method req) <> None.

Let unrecognized (req : Request) : error :=
  errors_New (String.append "unrecognized command " (Method req)).

Lemma declareRequests_unrecognized (h : Header) (pre post : list Request)
      (inner : Request) :
  Forall registered pre ->
  LookupCommand (Method inner) = None ->
  forall spans,
    declareRequests h (pre ++ inner :: post) spans = inr (unrecognized inner).
Proof.
  intros Hpre Hinner. induction Hpre as [| req pre Hreq Hpre IH];
    intros spans; simpl.
  - rewrite Hinner. reflexivity.
  - unfold registered in Hreq.
    destruct (LookupCommand (Method req)) as [cmd |]; [apply IH | congruence].
Qed.

Lemma declareRequests_inv (h : Header) (reqs : list Request) :
  forall spans,
    match declareRequests h reqs spans with
    | inl _ => Forall registered reqs
    | inr err =>
        exists pre inner post,
        reqs = pre ++ inner :: post
        /\ Forall registered pre
        /\ LookupCommand (Method inner) = None
        /\ err = unrecognized inner
    end.
Proof.
  induction reqs as [| req reqs IH]; intros spans; simpl.
  - constructor.
  - destruct (LookupCommand (Method req)) as [cmd |] eqn:Hreq.
    + specialize (IH (DeclareKeys cmd h req spans)).
      destruct (declareRequests h reqs (DeclareKeys cmd h req spans))
        as [spans' | err].
      * constructor; [unfold registered; congruence | assumption].
      * destruct IH as (pre & inner & post & -> & Hpre & Hinner & ->).
        exists (req :: pre), inner, post.
        repeat split; auto.
        constructor; [unfold registered; congruence | assumption].
    + exists [], req, reqs. repeat split; auto.
Qed.

(** X5. [collectSpans] refuses a batch at its first request whose method
    has no registered command, with the error "unrecognized command
    <method>" of that request, whatever follows it in the batch. *)
Theorem collectSpans_first_unrecognized
        (ba : BatchRequest) (pre post : list Request) (inner : Request) :
  Requests ba = pre ++ inner :: post ->
  (forall req, In req pre -> LookupCommand (Method req) <> None) ->
  LookupCommand (Method inner) = None ->
  Replica_collectSpans ba
  = inr (errors_New (String.append "unrecognized command " (Method inner))).
Proof.
  intros Hreqs Hpre Hinner. unfold Replica_collectSpans.
  cbv zeta. rewrite Hreqs.
  rewrite declareRequests_unrecognized; auto.
  apply Forall_forall. exact Hpre.
Qed.

(** X6. What [collectSpans] returns: a span set only when every request of
    the batch has a registered command, and then one that passed
    validation; an error only for the first unrecognized request, or,
    with every command registered, the error of the validation. *)
Theorem collectSpans_results (ba : BatchRequest) :
  match Replica_collectSpans ba with
  | inl spans =>
      (forall req, In req (Requests ba) -> LookupCommand (Method req) <> None)
      /\ Validate spans = None
  | inr err =>
      (exists pre inner post,
          Requests ba = pre ++ inner :: post
          /\ (forall req, In req pre -> LookupCommand (Method req) <> None)
          /\ LookupCommand (Method inner) = None
          /\ err = errors_New
                     (String.append "unrecognized command " (Method inner)))
      \/ ((forall req,
              In req (Requests ba) -> LookupCommand (Method req) <> None)
          /\ exists spans, Validate spans = Some err)
  end.
Proof.
  unfold Replica_collectSpans.
  match goal with
  | |- context [declareRequests ?h ?reqs ?spans] =>
      pose proof (declareRequests_inv h reqs spans) as Hinv;
      destruct (declareRequests h reqs spans) as [spans' | err]
  end.
  - rewrite Forall_forall in Hinv.
    destruct (Validate (SortAndDedup spans')) as [err |] eqn:Hval.
    + right. split; [exact Hinv | eauto].
    + split; [exact Hinv | exact Hval].
  - destruct Hinv as (pre & inner & post & Hreqs & Hpre & Hinner & ->).
    left. exists pre, inner, post. rewrite Forall_forall in Hpre. auto.
Qed.

End CollectSpansProofs.

(* ------------------------------------------------------------------ *)
(** ** Abnormal exits: log.Fatalf and panics *)

Section Stops.

Context {S : Type} (P : Abort -> Prop).

Lemma stopsOnly_ret {A} (a : A) : stopsOnly (S := S) P (ret a).
Proof. intros w e H. discriminate. Qed.

Lemma stopsOnly_call {A} (f : Ext S A) : stopsOnly P (call f).
Proof. intros w e H. unfold call in H. destruct (f (ext w)). discriminate. Qed.

Lemma stopsOnly_update (f : S -> S) : stopsOnly P (update f).
Proof. intros w e H. discriminate. Qed.

Lemma stopsOnly_gets {A} (f : S -> A) : stopsOnly P (gets f).
Proof. intros w e H. discriminate. Qed.

Lemma stopsOnly_emit (ev : Event) : stopsOnly (S := S) P (emit ev).
Proof. intros w e H. discriminate. Qed.

Lemma stopsOnly_stop {A} (e : Abort) :
  P e -> stopsOnly (S := S) (A := A) P (stop e).
Proof. intros He w e' H. inversion H; subst. exact He. Qed.

Lemma stopsOnly_bind {A B} (m : M S A) (k : A -> M S B) :
  stopsOnly P m -> (forall a, stopsOnly P (k a)) -> stopsOnly P (bind m k).
Proof.
  intros Hm Hk w e H. unfold bind in H.
  destruct (m w) as [a w1 | e1] eqn:Hmw.
  - exact (Hk a w1 e H).
  - inversion H; subst. exact (Hm w e Hmw).
Qed.

Lemma stopsOnly_weaken {A} (P' : Abort -> Prop) (m : M S A) :
  (forall e, P' e -> P e) -> stopsOnly P' m -> stopsOnly P m.
Proof. intros HP Hm w e H. apply HP. exact (Hm w e H). Qed.

(** A computation that cannot stop returns. *)
Lemma never_stops_returns {A} (m : M S A) (w : World S) :
  stopsOnly (fun _ => False) m -> exists a w', m w = Ret a w'.
Proof.
  intros Hm. destruct (m w) as [a w' | e] eqn:Hmw; [eauto |].
  elim (Hm w e Hmw).
Qed.

End Stops.

(** Stops of a computation, by its syntax. *)
Ltac stops :=
  repeat first
    [ apply stopsOnly_ret
    | apply stopsOnly_gets
    | apply stopsOnly_update
    | apply stopsOnly_call
    | apply stopsOnly_emit
    | assumption
    | apply stopsOnly_stop; exact I
    | apply stopsOnly_bind; [| intros ?]
    | progress cbv beta
    | match goal with
      | IH : forall _, stopsOnly _ _ |- _ => apply IH
      end
    | match goal with
      | |- stopsOnly _ (match ?x with _ => _ end) => destruct x
      end ].

Section Exits.

Context {S : Type} {helpers : Helpers} (r : Replica S).

Lemma handleTransactionPushError_never_stops ba pErr t :
  stopsOnly (fun _ => False) (handleTransactionPushError r ba pErr t).
Proof.
  unfold handleTransactionPushError, IsSinglePushTxnRequest.
  apply stopsOnly_bind; [| intros dontRetry; stops].
  destruct (negb (DontRetryPushTxnFailures (TestingKnobs r))); simpl;
    [| stops].
  destruct (Requests ba) as [| [ | | | | | | | | | p | m] [| req reqs]];
    simpl; stops.
Qed.

Lemma handleIndeterminateCommitError_never_stops ba pErr t :
  stopsOnly (fun _ => False) (handleIndeterminateCommitError r ba pErr t).
Proof.
  unfold handleIndeterminateCommitError.
  destruct (DontRecoverIndeterminateCommits (TestingKnobs r)); [stops |].
  apply stopsOnly_bind; [stops | intros err].
  destruct err as [e |]; [| stops].
  destruct (isAmbiguousResultError e); simpl; stops.
Qed.

Lemma handleMergeInProgressError_never_stops ba pErr :
  stopsOnly (fun _ => False) (handleMergeInProgressError r ba pErr).
Proof. unfold handleMergeInProgressError, log_Event. stops. Qed.

(** X7. The transaction-push, indeterminate-commit and merge-in-progress
    handlers always return: the type assertion of the first request to a
    PushTxn request is guarded by [IsSinglePushTxnRequest], and nothing
    else in them can panic or die. *)
Theorem conflict_handlers_return
        (ba : BatchRequest) (pErr : Error) (w : World S) :
  (forall t, exists res w',
        handleTransactionPushError r ba pErr t w = Ret res w')
  /\ (forall t, exists res w',
         handleIndeterminateCommitError r ba pErr t w = Ret res w')
  /\ (exists res w', handleMergeInProgressError r ba pErr w = Ret res w').
Proof.
  split; [| split].
  - intros t. apply never_stops_returns.
    apply handleTransactionPushError_never_stops.
  - intros t. apply never_stops_returns.
    apply handleIndeterminateCommitError_never_stops.
  - apply never_stops_returns. apply handleMergeInProgressError_never_stops.
Qed.

Lemma adminCommand_never_stops ba args command :
  adminCommand r ba args = Some command -> stopsOnly (fun _ => False) command.
Proof.
  unfold adminCommand.
  destruct args; intros H; inversion H; subst; stops.
Qed.

Lemma executeAdminBatch_never_stops ba :
  stopsOnly (fun _ => False) (executeAdminBatch r ba).
Proof.
  unfold executeAdminBatch.
  destruct (Nat.eqb (List.length (Requests ba)) 1) eqn:Hlen; simpl; [| stops].
  apply Nat.eqb_eq in Hlen.
  destruct (Requests ba) as [| args reqs]; [discriminate Hlen |].
  apply stopsOnly_bind; [stops | intros args'].
  apply stopsOnly_bind; [stops | intros ?].
  apply stopsOnly_bind; [stops | intros [status pErr]].
  destruct pErr; [stops |].
  apply stopsOnly_bind; [stops | intros err].
  destruct err; [stops |].
  destruct (adminCommand r ba args') as [command |] eqn:Hcmd; [| stops].
  apply stopsOnly_bind; [eapply adminCommand_never_stops; eassumption |].
  intros [resp pErr]. stops.
Qed.

(** X8. [executeAdminBatch] always returns: it never panics, since the
    first request is read only once the batch is known to have exactly
    one, and it never dies in [log.Fatalf], an unrecognized command
    included. *)
Theorem executeAdminBatch_returns (ba : BatchRequest) (w : World S) :
  exists res w', executeAdminBatch r ba w = Ret res w'.
Proof. apply never_stops_returns. apply executeAdminBatch_never_stops. Qed.

(** The one reason for which the retry loop dies in [log.Fatalf]. *)
Let missingObserved (ba : BatchRequest) (msg : string) : Prop :=
  msg = "missing observed timestamp"
  /\ DontPushOnWriteIntentError (TestingKnobs r) = false
  /\ pushHeader (BatchRequest_Header ba) = None.

Lemma handleWriteIntentError_stops ba pErr t cleanup :
  stopsOnly (fatalOnly (missingObserved ba))
            (handleWriteIntentError r ba pErr t cleanup).
Proof.
  unfold handleWriteIntentError.
  destruct (DontPushOnWriteIntentError (TestingKnobs r)) eqn:Hknob; [stops |].
  apply stopsOnly_bind.
  { unfold requestAt. stops. }
  intros args.
  destruct (pushHeader (BatchRequest_Header ba)) as [h |] eqn:Hh.
  - unfold cleanupCall. stops.
  - apply stopsOnly_bind; [| intros ?; unfold cleanupCall; stops].
    apply stopsOnly_stop. simpl. unfold missingObserved. auto.
Qed.

Lemma retryLoop_stops fuel ba fn spans :
  forall cleanup,
    stopsOnly (fatalOnly (missingObserved ba))
              (retryLoop r fuel ba fn spans cleanup).
Proof.
  pose proof (fun e t =>
                stopsOnly_weaken (fatalOnly (missingObserved ba)) _ _
                  (fun e (H : False) => match H with end)
                  (handleTransactionPushError_never_stops ba e t)) as Hpush.
  pose proof (fun e t =>
                stopsOnly_weaken (fatalOnly (missingObserved ba)) _ _
                  (fun e (H : False) => match H with end)
                  (handleIndeterminateCommitError_never_stops ba e t))
    as Hindet.
  pose proof (fun e =>
                stopsOnly_weaken (fatalOnly (missingObserved ba)) _ _
                  (fun e (H : False) => match H with end)
                  (handleMergeInProgressError_never_stops ba e)) as Hmerge.
  pose proof (handleWriteIntentError_stops ba) as Hwi.
  induction fuel as [| fuel IH]; intros cleanup; cbn [retryLoop].
  - apply stopsOnly_stop. exact I.
  - repeat first
      [ apply Hpush | apply Hindet | apply Hmerge | apply Hwi | apply IH
      | apply stopsOnly_ret
      | apply stopsOnly_gets
      | apply stopsOnly_call
      | apply stopsOnly_bind; [| intros ?]
      | progress cbv beta
      | match goal with
        | |- stopsOnly _ (match ?x with _ => _ end) => destruct x
        end ].
Qed.

Lemma executeBatchWithConcurrencyRetries_stops fuel ba fn :
  stopsOnly (fatalOnly (missingObserved ba))
            (executeBatchWithConcurrencyRetries r fuel ba fn).
Proof.
  pose proof (retryLoop_stops fuel ba fn) as Hloop.
  unfold executeBatchWithConcurrencyRetries.
  destruct (collectSpans r ba) as [spans | err]; [| stops].
  apply stopsOnly_bind; [stops | intros ?].
  apply stopsOnly_bind; [apply Hloop | intros res].
  apply stopsOnly_bind; [| intros ?; stops].
  unfold deferredCleanup, br_Txn, cleanupCall. stops.
Qed.

(** X9. [sendWithRangeID] dies in [log.Fatalf] for three reasons only.  On
    the read-write or read-only path: a write-intent conflict met a batch
    whose transaction has no observed timestamp for the replica's node,
    with pushing enabled.  Otherwise: the batch is neither read-only, nor a
    write, nor an admin batch, and the message is "empty batch" when it has
    no request and "don't know how to handle command" when it has some. *)
Theorem sendWithRangeID_fatal
        (fuel : nat) (rangeID : RangeID) (ba : BatchRequest) (w : World S)
        (msg : string) :
  sendWithRangeID r fuel rangeID ba w = Stop (Fatal msg) ->
  exists ba',
    maybeStripInFlightWrites ba = inl ba'
    /\ (((negb (IsReadOnly ba) && IsWrite ba) || IsReadOnly ba = true
         /\ msg = "missing observed timestamp"
         /\ DontPushOnWriteIntentError (TestingKnobs r) = false
         /\ exists txn,
             Txn (BatchRequest_Header ba') = Some txn
             /\ GetObservedTimestamp
                  txn
                  (ReplicaDescriptor_NodeID
                     (Header_Replica (BatchRequest_Header ba')))
                = None)
        \/ (IsReadOnly ba = false /\ IsWrite ba = false /\ IsAdmin ba' = false
            /\ ((Requests ba' = [] /\ msg = "empty batch")
                \/ (Requests ba' <> []
                    /\ msg = "don't know how to handle command")))).
Proof.
  set (P := fun e : Abort =>
              match e with
              | Fatal msg =>
                  exists ba',
                  maybeStripInFlightWrites ba = inl ba'
                  /\ (((negb (IsReadOnly ba) && IsWrite ba) || IsReadOnly ba
                       = true
                       /\ missingObserved ba' msg)
                      \/ (IsReadOnly ba = false /\ IsWrite ba = false
                          /\ IsAdmin ba' = false
                          /\ ((Requests ba' = [] /\ msg = "empty batch")
                              \/ (Requests ba' <> []
                                  /\ msg
                                     = "don't know how to handle command"))))
              | _ => True
              end).
  assert (Hsend : stopsOnly P (sendWithRangeID r fuel rangeID ba)).
  { unfold sendWithRangeID.
    apply stopsOnly_bind; [stops | intros _].
    apply stopsOnly_bind; [stops | intros _].
    destruct (checkBatchRequest ba (IsReadOnly ba)); [stops |].
    apply stopsOnly_bind; [stops | intros err].
    destruct err; [stops |].
    destruct (maybeStripInFlightWrites ba) as [ba' | err] eqn:Hstrip; [| stops].
    apply stopsOnly_bind; [stops | intros pErr].
    destruct pErr; [stops |].
    apply stopsOnly_bind; [| intros [br pErr]; unfold respond, log_Event; stops].
    assert (Hloop :
              forall fn,
                (negb (IsReadOnly ba) && IsWrite ba) || IsReadOnly ba = true ->
                stopsOnly P (executeBatchWithConcurrencyRetries r fuel ba' fn)).
    { intros fn Hpath.
      apply (stopsOnly_weaken P (fatalOnly (missingObserved ba')));
        [| apply executeBatchWithConcurrencyRetries_stops].
      intros [msg' | msg' |]; simpl; auto.
      intros Hmiss. exists ba'. split; [reflexivity |]. left. auto. }
    destruct (IsReadOnly ba) eqn:Hro; simpl.
    - apply stopsOnly_bind; [unfold log_Event; stops | intros _].
      apply Hloop. reflexivity.
    - destruct (IsWrite ba) eqn:Hwr.
      + apply stopsOnly_bind; [unfold log_Event; stops | intros _].
        apply Hloop. reflexivity.
      + destruct (IsAdmin ba') eqn:Had.
        * apply stopsOnly_bind; [unfold log_Event; stops | intros _].
          apply (stopsOnly_weaken P (fun _ => False));
            [intros e []| apply executeAdminBatch_never_stops].
        * destruct (Requests ba') as [| req reqs] eqn:Hreqs; simpl.
          -- apply stopsOnly_stop. simpl. exists ba'.
             split; [reflexivity |]. right. repeat split; auto.
          -- apply stopsOnly_stop. simpl. exists ba'.
             split; [reflexivity |]. right. repeat split; auto.
             right. split; [rewrite Hreqs; discriminate | reflexivity]. }
  intros H. apply Hsend in H. simpl in H.
  destruct H as (ba' & Hstrip & [(Hpath & Hmsg & Hknob & Hh) | Hother]).
  - exists ba'. split; [assumption |]. left.
    apply pushHeader_None_iff in Hh. auto.
  - exists ba'. split; [assumption |]. right. assumption.
Qed.

End Exits.

(* ------------------------------------------------------------------ *)
(** ** The admin executor, the push header and the chained cleanup *)

Section AdminAndPush.

Context {S : Type} {helpers : Helpers} (r : Replica S).

Lemma adminCommand_trace ba args command w resp pErr w' :
  adminCommand r ba args = Some command ->
  command w = Ret (resp, pErr) w' ->
  trace w' = trace w.
Proof.
  unfold adminCommand.
  destruct args; intros H Hrun; inversion H; subst; clear H;
    repeat match goal with
      | H : bind _ _ _ = Ret _ _ |- _ =>
          apply bind_Ret_inv in H as (? & ? & ? & H)
      | H : call _ _ = Ret _ _ |- _ => apply call_Ret_inv in H as [_ H]
      | H : (match ?x with _ => _ end) _ = Ret _ _ |- _ => destruct x
      | H : ret _ _ = Ret _ _ |- _ => apply ret_Ret_inv in H as [_ <-]
      end;
    congruence.
Qed.

(** Every return of [executeAdminBatch] with a response. *)
Lemma executeAdminBatch_Some_inv ba w b pErr w' :
  executeAdminBatch r ba w = Ret (Some b, pErr) w' ->
  pErr = None
  /\ exists args command reply status s,
      Requests ba = [args]
      /\ adminCommand r ba args = Some command
      /\ redirectOnOrAcquireLease r (ext w) = ((status, None), s)
      /\ checkExecutionCanProceed r ba status s = None
      /\ command {| ext := s;
                    trace := trace w ++ [Ev_redirectOnOrAcquireLease] |}
         = Ret (reply, None) w'
      /\ let resp := if ReturnRangeInfo (BatchRequest_Header ba)
                     then returnRangeInfo reply else reply in
         b = {| BatchResponse_Txn := Response_Txn resp; Responses := [resp] |}.
Proof.
  unfold executeAdminBatch.
  destruct (Nat.eqb (List.length (Requests ba)) 1) eqn:Hlen; simpl;
    [| intros H; apply ret_Ret_inv in H as [H _]; discriminate H].
  apply Nat.eqb_eq in Hlen.
  destruct (Requests ba) as [| args [| req reqs]]; try discriminate Hlen.
  intros H.
  apply bind_Ret_inv in H as (args' & w0 & Hargs & H).
  apply ret_Ret_inv in Hargs as [<- <-].
  apply bind_Ret_inv in H as (u & w1 & Hemit & H).
  apply emit_Ret_inv in Hemit as [Hext1 Htr1].
  apply bind_Ret_inv in H as ([status lErr] & w2 & Hlease & H).
  apply call_Ret_inv in Hlease as [Hlease Htr2].
  destruct lErr as [e |];
    [apply ret_Ret_inv in H as [H _]; discriminate H |].
  apply bind_Ret_inv in H as (err & w3 & Hcheck & H).
  apply gets_Ret_inv in Hcheck as [-> ->].
  destruct (checkExecutionCanProceed r ba status (ext w2)) eqn:Hcheck;
    [apply ret_Ret_inv in H as [H _]; discriminate H |].
  destruct (adminCommand r ba args) as [command |] eqn:Hcmd;
    [| apply ret_Ret_inv in H as [H _]; discriminate H].
  apply bind_Ret_inv in H as ([reply cErr] & w4 & Hrun & H).
  destruct cErr as [e |];
    [apply ret_Ret_inv in H as [H _]; discriminate H |].
  apply ret_Ret_inv in H as [H <-]. inversion H; subst. clear H.
  split; [reflexivity |].
  exists args, command, reply, status, (ext w2).
  assert (Hw2 : w2 = {| ext := ext w2;
                        trace := trace w ++ [Ev_redirectOnOrAcquireLease] |}).
  { destruct w2 as [s2 tr2]. simpl in *. congruence. }
  rewrite <- Hw2, <- Hext1.
  repeat split; assumption.
Qed.

Lemma executeAdminBatch_None_inv ba w pErr w' :
  executeAdminBatch r ba w = Ret (None, pErr) w' -> pErr <> None.
Proof.
  unfold executeAdminBatch. intros H.
  repeat match goal with
    | H : (if ?c then _ else _) _ = Ret _ _ |- _ => destruct c
    | H : bind _ _ _ = Ret _ _ |- _ =>
        apply bind_Ret_inv in H as (? & ? & ? & H)
    | H : (let '(_, _) := ?x in _) _ = Ret _ _ |- _ => destruct x
    | H : (match ?x with _ => _ end) _ = Ret _ _ |- _ => destruct x
    | H : ret _ _ = Ret _ _ |- _ =>
        apply ret_Ret_inv in H as [H _]; inversion H; subst
    end;
    try discriminate.
Qed.

(** X10. What [executeAdminBatch] returns is a response or an error and
    never both or neither.  A response is returned only for a batch of
    exactly one recognized admin request, after one lease check that
    succeeded and a successful check that execution can proceed, when the
    command, run next, returned a reply and no error; the response holds
    exactly that reply, with range info attached when the header asks for
    it, and carries that reply's transaction; the state and trace returned
    are those the command left. *)
Theorem executeAdminBatch_results
        (ba : BatchRequest) (w : World S)
        (br : option BatchResponse) (pErr : option Error) (w' : World S) :
  executeAdminBatch r ba w = Ret (br, pErr) w' ->
  exclusiveResult (br, pErr)
  /\ forall b,
      br = Some b ->
      exists args command reply status s,
        Requests ba = [args]
        /\ adminCommand r ba args = Some command
        /\ redirectOnOrAcquireLease r (ext w) = ((status, None), s)
        /\ checkExecutionCanProceed r ba status s = None
        /\ command {| ext := s;
                      trace := trace w ++ [Ev_redirectOnOrAcquireLease] |}
           = Ret (reply, None) w'
        /\ trace w' = trace w ++ [Ev_redirectOnOrAcquireLease]
        /\ let resp := if ReturnRangeInfo (BatchRequest_Header ba)
                       then returnRangeInfo reply else reply in
           b = {| BatchResponse_Txn := Response_Txn resp;
                  Responses := [resp] |}.
Proof.
  intros H. destruct br as [b |].
  - apply executeAdminBatch_Some_inv in H as [-> Hb]. split.
    + right. simpl. split; [discriminate | reflexivity].
    + intros b' Hb'. inversion Hb'; subst.
      destruct Hb as (args & command & reply & status & s
                      & Hreqs & Hcmd & Hlease & Hcheck & Hrun & Hresp).
      exists args, command, reply, status, s.
      pose proof (adminCommand_trace _ _ _ _ _ _ _ Hcmd Hrun) as Htr.
      simpl in Htr. repeat split; assumption.
  - apply executeAdminBatch_None_inv in H. split.
    + left. simpl. auto.
    + discriminate.
Qed.

(** X11. A single request that is no admin command (a PushTxn or any other
    method) is answered, once the lease is held and execution can proceed,
    with the error "unrecognized admin command": after the lease check, not
    before it, and with no command run. *)
Theorem executeAdminBatch_unrecognized
        (ba : BatchRequest) (args : Request) (w : World S)
        (status : LeaseStatus) (s : S) :
  Requests ba = [args] ->
  (exists p, args = PushTxn p) \/ (exists m, args = OtherRequest m) ->
  redirectOnOrAcquireLease r (ext w) = ((status, None), s) ->
  checkExecutionCanProceed r ba status s = None ->
  executeAdminBatch r ba w
  = Ret (None,
         Some {| GoError := errors_New "unrecognized admin command: %T";
                 Error_Index := None |})
        {| ext := s; trace := trace w ++ [Ev_redirectOnOrAcquireLease] |}.
Proof.
  intros Hreqs Hkind Hlease Hcheck.
  assert (Hcmd : adminCommand r ba args = None).
  { destruct Hkind as [[p ->] | [m ->]]; reflexivity. }
  unfold executeAdminBatch. rewrite Hreqs. simpl.
  unfold bind at 1. unfold ret at 1.
  unfold bind at 1. unfold emit at 1.
  rewrite (bind_Ret _ _ _ _ _
             (call_Ret _ {| ext := ext w;
                            trace := trace w ++ [Ev_redirectOnOrAcquireLease] |}
                       _ _ Hlease)).
  cbv beta iota. unfold bind at 1. unfold gets at 1. cbn [ext trace].
  rewrite Hcheck, Hcmd. reflexivity.
Qed.

(** X12. The header [handleWriteIntentError] hands to the push differs from
    the header of the batch in its timestamp only, which never moves
    backwards: with a transaction it is the later of the batch timestamp
    and the observed timestamp of the replica's node, and without a
    transaction the header is the batch's own. *)
Theorem pushHeader_forwards_timestamp (h h' : Header) :
  pushHeader h = Some h' ->
  hlc.Less (Timestamp h') (Timestamp h) = false
  /\ Header_Replica h' = Header_Replica h
  /\ Txn h' = Txn h
  /\ ReadConsistency h' = ReadConsistency h
  /\ GatewayNodeID h' = GatewayNodeID h
  /\ ReturnRangeInfo h' = ReturnRangeInfo h
  /\ (Txn h = None -> h' = h)
  /\ (forall txn obsTS,
         Txn h = Some txn ->
         GetObservedTimestamp
           txn (ReplicaDescriptor_NodeID (Header_Replica h)) = Some obsTS ->
         hlc.Less (Timestamp h') obsTS = false
         /\ (Timestamp h' = Timestamp h \/ Timestamp h' = obsTS)).
Proof.
  unfold pushHeader. destruct (Txn h) as [txn |] eqn:Htxn.
  - destruct (GetObservedTimestamp
                txn (ReplicaDescriptor_NodeID (Header_Replica h)))
      as [obsTS |] eqn:Hobs; [| discriminate].
    intros H. inversion H; subst; simpl. clear H.
    destruct (hlc_Forward_lower (Timestamp h) obsTS) as [Hh Ho].
    split; [exact Hh |].
    split; [reflexivity |].
    split; [reflexivity |].
    split; [reflexivity |].
    split; [reflexivity |].
    split; [reflexivity |].
    split; [discriminate |].
    intros txn' obsTS' Ht Ho'. inversion Ht; subst.
    rewrite Hobs in Ho'. inversion Ho'; subst.
    split; [exact Ho |].
    unfold hlc.Forward. destruct (hlc.Less (Timestamp h) obsTS'); auto.
  - intros H. inversion H; subst.
    split; [apply hlc_Less_irrefl |].
    split; [reflexivity |].
    split; [assumption |].
    split; [reflexivity |].
    split; [reflexivity |].
    split; [reflexivity |].
    split; [reflexivity |].
    intros txn obsTS Ht. discriminate Ht.
Qed.

(** X13. The trace of [handleWriteIntentError].  Under the
    DontPushOnWriteIntentError knob it touches nothing: the cleanup closure
    it was given is neither called nor replaced and the conflict is
    returned.  Otherwise, when it returns, it has first called the closure
    of the previous attempt, if any, with the new conflict and nil, then
    obtained the closure it returns from the intent resolver, and nothing
    else; this holds when the resolver failed, too. *)
Theorem handleWriteIntentError_chains_cleanup
        (ba : BatchRequest) (pErr : Error) (t : WriteIntentError)
        (cleanup : option CleanupFunc) (w : World S)
        (c : option CleanupFunc) (res : option Error) (w' : World S) :
  handleWriteIntentError r ba pErr t cleanup w = Ret (c, res) w' ->
  if DontPushOnWriteIntentError (TestingKnobs r)
  then c = cleanup /\ res = Some pErr /\ w' = w
  else trace w'
       = trace w
         ++ match cleanup with
            | Some c0 => [Ev_cleanup c0 (Some t) None]
            | None => []
            end
         ++ [Ev_ProcessWriteIntentError c].
Proof.
  intros H. apply handleWriteIntentError_Ret_inv in H.
  destruct H as [(-> & Hc & Hres & Hw)
                | (-> & args & h & pErr' & _ & _ & Htr & _)].
  - auto.
  - rewrite Htr. destruct cleanup as [c0 |]; simpl.
    + rewrite <- app_assoc. reflexivity.
    + reflexivity.
Qed.

End AdminAndPush.

(* ------------------------------------------------------------------ *)
(** ** Results and cleanup closures of a whole call *)

Section WholeCalls.

Context {S : Type} {helpers : Helpers} (r : Replica S).

(** The wait queue answers with a response or an error, not both. *)
Let waitExclusive : Prop :=
  forall ba s,
    fst (fst (maybeWaitForPushee r ba s)) = None
    \/ snd (fst (maybeWaitForPushee r ba s)) = None.

(** An executor that does not answer (nil, nil). *)
Let answers (fn : batchExecutionFn S) : Prop :=
  forall ba spans lg s,
    fst (fst (fn ba spans lg s)) <> None
    \/ snd (fst (fn ba spans lg s)) <> None.

Lemma retryLoop_exclusive fuel ba fn spans :
  waitExclusive -> answers fn ->
  forall cleanup w c res w',
    retryLoop r fuel ba fn spans cleanup w = Ret (c, res) w' ->
    exclusiveResult res.
Proof.
  intros Hwait Hfn.
  induction fuel as [| fuel IH]; intros cleanup w c res w' H;
    [discriminate |].
  cbn [retryLoop] in H.
  assert (Herr : forall c0 e w0,
             ret (S := S) (c0, (@None BatchResponse, Some e)) w0
             = Ret (c, res) w' ->
             exclusiveResult res).
  { intros c0 e w0 Hret. apply ret_Ret_inv in Hret as [Heq _].
    inversion Heq; subst. left. simpl. split; [reflexivity | discriminate]. }
  assert (Hhandled :
            forall (c0 : option CleanupFunc) (pErr : option Error) w0,
              match pErr with
              | Some _ => ret (c0, (None, pErr))
              | None => retryLoop r fuel ba fn spans c0
              end w0 = Ret (c, res) w' ->
              exclusiveResult res).
  { intros c0 [e |] w0 Hrun; [eapply Herr | eapply IH]; eassumption. }
  apply bind_Ret_inv in H as (err & w0 & Hctx & H).
  destruct err as [e |]; [exact (Herr _ _ _ H) |].
  apply bind_Ret_inv in H as ([br0 pErr0] & w1 & Hw & H).
  apply call_Ret_inv in Hw as [Hw _].
  destruct (isSome br0 || isSome pErr0) eqn:Hany.
  { apply ret_Ret_inv in H as [Heq _]. inversion Heq; subst.
    specialize (Hwait ba (ext w0)). rewrite Hw in Hwait. simpl in Hwait.
    destruct br0, pErr0; simpl in *; try discriminate;
      destruct Hwait; try discriminate.
    - right. simpl. split; [discriminate | reflexivity].
    - left. simpl. split; [reflexivity | discriminate]. }
  apply bind_Ret_inv in H as (lg & w2 & _ & H).
  destruct lg as [lg | err]; [| exact (Herr _ _ _ H)].
  apply bind_Ret_inv in H as ([br1 pErr1] & w3 & Hexec & H).
  apply call_Ret_inv in Hexec as [Hexec _].
  destruct pErr1 as [e |].
  2:{ apply ret_Ret_inv in H as [Heq _]. inversion Heq; subst.
      specialize (Hfn ba spans lg (ext w2)). rewrite Hexec in Hfn.
      simpl in Hfn. right. simpl. split; [| reflexivity].
      destruct Hfn as [Hbr | Herr']; [assumption | congruence]. }
  destruct (GoError e) as [[t | t | t | | msg | | name] | msg | cause msg];
    try exact (Herr _ _ _ H).
  - apply bind_Ret_inv in H as ([c1 pErr2] & w4 & _ & H).
    exact (Hhandled _ _ _ H).
  - apply bind_Ret_inv in H as (pErr2 & w4 & _ & H). exact (Hhandled _ _ _ H).
  - apply bind_Ret_inv in H as (pErr2 & w4 & _ & H). exact (Hhandled _ _ _ H).
  - apply bind_Ret_inv in H as (pErr2 & w4 & _ & H). exact (Hhandled _ _ _ H).
Qed.

Lemma executeBatchWithConcurrencyRetries_exclusive fuel ba fn w res w' :
  waitExclusive -> answers fn ->
  executeBatchWithConcurrencyRetries r fuel ba fn w = Ret res w' ->
  exclusiveResult res.
Proof.
  intros Hwait Hfn H. unfold executeBatchWithConcurrencyRetries in H.
  destruct (collectSpans r ba) as [spans | err].
  - apply bind_Ret_inv in H as (u & w0 & _ & H).
    apply bind_Ret_inv in H as ([c res0] & w1 & Hloop & H).
    apply bind_Ret_inv in H as (u' & w2 & _ & H).
    apply ret_Ret_inv in H as [<- _]. simpl.
    exact (retryLoop_exclusive _ _ _ _ Hwait Hfn _ _ _ _ _ Hloop).
  - apply ret_Ret_inv in H as [<- _]. left. simpl.
    split; [reflexivity | discriminate].
Qed.

(** X14. If the wait queue never answers with both a response and an
    error, and the executor never answers (nil, nil), then whatever
    [executeBatchWithConcurrencyRetries] returns is a response or an
    error: not both, and not neither.  In particular every error that ends
    the loop comes with a nil response, the response of the failed attempt
    being dropped. *)
Theorem executeBatchWithConcurrencyRetries_response_or_error
        (fuel : nat) (ba : BatchRequest) (fn : batchExecutionFn S)
        (w : World S) (br : option BatchResponse) (pErr : option Error)
        (w' : World S) :
  (forall ba s,
      fst (fst (maybeWaitForPushee r ba s)) = None
      \/ snd (fst (maybeWaitForPushee r ba s)) = None) ->
  (forall ba spans lg s,
      fst (fst (fn ba spans lg s)) <> None
      \/ snd (fst (fn ba spans lg s)) <> None) ->
  executeBatchWithConcurrencyRetries r fuel ba fn w = Ret (br, pErr) w' ->
  (br = None /\ pErr <> None) \/ (br <> None /\ pErr = None).
Proof.
  intros Hwait Hfn H.
  exact (executeBatchWithConcurrencyRetries_exclusive
           fuel ba fn w (br, pErr) w' Hwait Hfn H).
Qed.

(** X15. Under the same conditions on the wait queue and on both
    executors, [sendWithRangeID] never returns (nil, nil); and when no
    response filter is installed it returns a response or an error and
    not both. *)
Theorem sendWithRangeID_response_or_error
        (fuel : nat) (rangeID : RangeID) (ba : BatchRequest) (w : World S)
        (br : option BatchResponse) (pErr : option Error) (w' : World S) :
  (forall ba s,
      fst (fst (maybeWaitForPushee r ba s)) = None
      \/ snd (fst (maybeWaitForPushee r ba s)) = None) ->
  (forall ba spans lg s,
      fst (fst (executeWriteBatch r ba spans lg s)) <> None
      \/ snd (fst (executeWriteBatch r ba spans lg s)) <> None) ->
  (forall ba spans lg s,
      fst (fst (executeReadOnlyBatch r ba spans lg s)) <> None
      \/ snd (fst (executeReadOnlyBatch r ba spans lg s)) <> None) ->
  sendWithRangeID r fuel rangeID ba w = Ret (br, pErr) w' ->
  (br <> None \/ pErr <> None)
  /\ (TestingResponseFilter (TestingKnobs r) = None ->
      (br = None /\ pErr <> None) \/ (br <> None /\ pErr = None)).
Proof.
  intros Hwait Hwrite Hread H.
  assert (Hgoal : forall e : Error,
             (@None BatchResponse <> None \/ Some e <> None)
             /\ (TestingResponseFilter (TestingKnobs r) = None ->
                 (@None BatchResponse = None /\ Some e <> None)
                 \/ (@None BatchResponse <> None /\ Some e = None))).
  { intros e. split; [right; discriminate |].
    intros _. left. split; [reflexivity | discriminate]. }
  unfold sendWithRangeID in H.
  apply bind_Ret_inv in H as (u & w0 & _ & H).
  apply bind_Ret_inv in H as (u' & w1 & _ & H).
  destruct (checkBatchRequest ba (IsReadOnly ba)) as [err |].
  { apply ret_Ret_inv in H as [Heq _]. inversion Heq; subst. apply Hgoal. }
  apply bind_Ret_inv in H as (err & w2 & _ & H).
  destruct err as [err |].
  { apply ret_Ret_inv in H as [Heq _]. inversion Heq; subst. apply Hgoal. }
  destruct (maybeStripInFlightWrites ba) as [ba' | err].
  2:{ apply ret_Ret_inv in H as [Heq _]. inversion Heq; subst. apply Hgoal. }
  apply bind_Ret_inv in H as (fErr & w3 & _ & H).
  destruct fErr as [e |].
  { apply ret_Ret_inv in H as [Heq _]. inversion Heq; subst. apply Hgoal. }
  apply bind_Ret_inv in H as ([br0 pErr0] & w4 & Hbranch & H).
  assert (Hex : exclusiveResult (br0, pErr0)).
  { destruct (negb (IsReadOnly ba) && IsWrite ba).
    - apply bind_Ret_inv in Hbranch as (? & ? & _ & Hbranch).
      exact (executeBatchWithConcurrencyRetries_exclusive
               _ _ _ _ _ _ Hwait Hwrite Hbranch).
    - destruct (IsReadOnly ba).
      + apply bind_Ret_inv in Hbranch as (? & ? & _ & Hbranch).
        exact (executeBatchWithConcurrencyRetries_exclusive
                 _ _ _ _ _ _ Hwait Hread Hbranch).
      + destruct (IsAdmin ba').
        * apply bind_Ret_inv in Hbranch as (? & ? & _ & Hbranch).
          destruct br0 as [b |].
          -- apply executeAdminBatch_Some_inv in Hbranch as [-> _].
             right. simpl. split; [discriminate | reflexivity].
          -- apply executeAdminBatch_None_inv in Hbranch.
             left. simpl. auto.
        * destruct (Nat.eqb (List.length (Requests ba')) 0);
            discriminate Hbranch. }
  unfold respond in H.
  destruct pErr0 as [e |].
  - apply bind_Ret_inv in H as (? & ? & _ & H).
    apply ret_Ret_inv in H as [Heq _]. inversion Heq; subst.
    destruct Hex as [[Hbr _] | [_ Herr]]; [| discriminate Herr].
    simpl in Hbr. subst br. apply Hgoal.
  - destruct Hex as [[_ Herr] | [Hbr _]]; [elim Herr; reflexivity |].
    simpl in Hbr.
    destruct (TestingResponseFilter (TestingKnobs r)) as [filter |].
    + apply bind_Ret_inv in H as (? & ? & _ & H).
      apply bind_Ret_inv in H as (? & ? & _ & H).
      apply ret_Ret_inv in H as [Heq _]. inversion Heq; subst.
      split; [left; assumption | discriminate].
    + apply ret_Ret_inv in H as [Heq _]. inversion Heq; subst.
      split; [left; assumption |]. intros _. right. auto.
Qed.

End WholeCalls.

Section CleanupBalance.

Context {S : Type} {helpers : Helpers} (r : Replica S).

Lemma isCleanupFree_not_acquire ev :
  isCleanupFree ev = true -> isAcquire ev = false.
Proof.
  unfold isCleanupFree. rewrite andb_true_iff, !negb_true_iff. tauto.
Qed.

Lemma isCleanupFree_not_cleanup ev :
  isCleanupFree ev = true -> isCleanupCall ev = false.
Proof.
  unfold isCleanupFree. rewrite andb_true_iff, !negb_true_iff. tauto.
Qed.

Lemma keepsCleanupBalance_free {A} (m : M S A) :
  emitsOnly isCleanupFree m -> keepsCleanupBalance m.
Proof.
  intros Hm w a w' H. unfold acquired, released.
  rewrite (emitsOnly_count isCleanupFree isAcquire m w a w'
             isCleanupFree_not_acquire Hm H).
  rewrite (emitsOnly_count isCleanupFree isCleanupCall m w a w'
             isCleanupFree_not_cleanup Hm H).
  lia.
Qed.

Lemma keepsCleanupBalance_bind {A B} (m : M S A) (k : A -> M S B) :
  keepsCleanupBalance m -> (forall a, keepsCleanupBalance (k a)) ->
  keepsCleanupBalance (bind m k).
Proof.
  intros Hm Hk w b w' H.
  apply bind_Ret_inv in H as (a & w1 & H1 & H2).
  apply Hm in H1. apply Hk in H2. lia.
Qed.

Lemma deferredCleanup_counts ba c res w u w' :
  deferredCleanup r ba (c, res) w = Ret u w' ->
  released (trace w') = (released (trace w) + held c)%nat
  /\ acquired (trace w') = acquired (trace w).
Proof.
  destruct res as [br pErr]. unfold deferredCleanup.
  destruct c as [c |].
  2:{ intros H. apply ret_Ret_inv in H as [_ <-]. simpl. lia. }
  intros H.
  assert (Hcall : forall meta w0,
             trace w0 = trace w ->
             cleanupCall r c None meta w0 = Ret u w' ->
             released (trace w') = (released (trace w) + held (Some c))%nat
             /\ acquired (trace w') = acquired (trace w)).
  { intros meta w0 Htr Hrun. rewrite cleanupCall_Ret in Hrun.
    inversion Hrun; subst. simpl. unfold acquired, released.
    rewrite !count_app, Htr. cbn. lia. }
  apply bind_Ret_inv in H as (wrote & w1 & Hcond & H).
  assert (Htr1 : trace w1 = trace w).
  { destruct (negb (isSome pErr) && isSome (Txn (BatchRequest_Header ba))).
    - apply bind_Ret_inv in Hcond as (txn & w2 & Htxn & Hcond).
      unfold br_Txn in Htxn.
      destruct br as [b |]; [| discriminate].
      destruct (BatchResponse_Txn b); [| discriminate].
      apply ret_Ret_inv in Htxn as [_ <-].
      apply ret_Ret_inv in Hcond as [_ <-]. reflexivity.
    - apply ret_Ret_inv in Hcond as [_ <-]. reflexivity. }
  destruct wrote.
  - apply bind_Ret_inv in H as (txn & w2 & Htxn & H).
    unfold br_Txn in Htxn.
    destruct br as [b |]; [| discriminate].
    destruct (BatchResponse_Txn b); [| discriminate].
    apply ret_Ret_inv in Htxn as [_ <-].
    exact (Hcall _ _ Htr1 H).
  - exact (Hcall _ _ Htr1 H).
Qed.

Lemma executeBatchWithConcurrencyRetries_balance fuel ba fn :
  keepsCleanupBalance (executeBatchWithConcurrencyRetries r fuel ba fn).
Proof.
  intros w res w' H. unfold executeBatchWithConcurrencyRetries in H.
  destruct (collectSpans r ba) as [spans | err].
  - apply bind_Ret_inv in H as (u & w0 & Hrec & H).
    apply update_Ret_inv in Hrec as [_ Htr0].
    apply bind_Ret_inv in H as ([c res0] & w1 & Hloop & H).
    apply bind_Ret_inv in H as (u' & w2 & Hdefer & H).
    apply ret_Ret_inv in H as [_ <-].
    apply retryLoop_balance in Hloop.
    apply deferredCleanup_counts in Hdefer as [Hrel Hacq].
    rewrite Htr0 in Hloop. simpl in Hloop. lia.
  - apply ret_Ret_inv in H as [_ <-]. lia.
Qed.

Lemma isPlainEvent_cleanupFree ev :
  isPlainEvent ev = true -> isCleanupFree ev = true.
Proof. destruct ev; cbv; congruence. Qed.

Lemma adminCommand_plain ba args command :
  adminCommand r ba args = Some command -> emitsOnly isPlainEvent command.
Proof.
  unfold adminCommand.
  destruct args; intros H; inversion H; subst; emits.
Qed.

Lemma executeAdminBatch_plain ba :
  emitsOnly isPlainEvent (executeAdminBatch r ba).
Proof.
  unfold executeAdminBatch.
  destruct (negb (Nat.eqb (List.length (Requests ba)) 1)); [emits |].
  apply emitsOnly_bind; [emits | intros args].
  apply emitsOnly_bind; [emits | intros ?].
  apply emitsOnly_bind; [emits | intros [status pErr]].
  destruct pErr; [emits |].
  apply emitsOnly_bind; [emits | intros err].
  destruct err; [emits |].
  destruct (adminCommand r ba args) as [command |] eqn:Hcmd; [| emits].
  apply emitsOnly_bind; [eapply adminCommand_plain; eassumption |].
  intros [resp pErr]. emits.
Qed.

(** X16. Whenever [sendWithRangeID] returns, on whichever path and with
    whatever result, the cleanup closures obtained from the intent
    resolver during the call have been called as often as they were
    obtained: none is left pending and none is called twice over. *)
Theorem sendWithRangeID_cleanup_balance
        (fuel : nat) (rangeID : RangeID) (ba : BatchRequest) (w : World S)
        (res : option BatchResponse * option Error) (w' : World S) :
  sendWithRangeID r fuel rangeID ba w = Ret res w' ->
  (released (trace w') + acquired (trace w)
   = acquired (trace w') + released (trace w))%nat.
Proof.
  revert w res w'.
  change (keepsCleanupBalance (sendWithRangeID r fuel rangeID ba)).
  pose proof (executeBatchWithConcurrencyRetries_balance fuel) as Hexec.
  pose proof (fun ba =>
                keepsCleanupBalance_free _
                  (emitsOnly_weaken isCleanupFree isPlainEvent _
                     isPlainEvent_cleanupFree (executeAdminBatch_plain ba)))
    as Hadmin.
  unfold sendWithRangeID.
  apply keepsCleanupBalance_bind;
    [apply keepsCleanupBalance_free; emits | intros _].
  apply keepsCleanupBalance_bind;
    [apply keepsCleanupBalance_free; emits | intros _].
  destruct (checkBatchRequest ba (IsReadOnly ba));
    [apply keepsCleanupBalance_free; emits |].
  apply keepsCleanupBalance_bind;
    [apply keepsCleanupBalance_free; emits | intros err].
  destruct err; [apply keepsCleanupBalance_free; emits |].
  destruct (maybeStripInFlightWrites ba) as [ba' | err];
    [| apply keepsCleanupBalance_free; emits].
  apply keepsCleanupBalance_bind;
    [apply keepsCleanupBalance_free; emits | intros pErr].
  destruct pErr; [apply keepsCleanupBalance_free; emits |].
  apply keepsCleanupBalance_bind.
  - destruct (negb (IsReadOnly ba) && IsWrite ba).
    { apply keepsCleanupBalance_bind;
        [apply keepsCleanupBalance_free; unfold log_Event; emits | intros _].
      apply Hexec. }
    destruct (IsReadOnly ba).
    { apply keepsCleanupBalance_bind;
        [apply keepsCleanupBalance_free; unfold log_Event; emits | intros _].
      apply Hexec. }
    destruct (IsAdmin ba').
    { apply keepsCleanupBalance_bind;
        [apply keepsCleanupBalance_free; unfold log_Event; emits | intros _].
      apply Hadmin. }
    destruct (Nat.eqb (List.length (Requests ba')) 0);
      intros w0 a w1 H; discriminate H.
  - intros [br pErr]. apply keepsCleanupBalance_free.
    unfold respond, log_Event. emits.
Qed.

(** X17. With [Replica.collectSpans] as the span collection of the
    replica, a batch holding a request whose method has no registered
    command is refused by [executeBatchWithConcurrencyRetries] with the
    error "unrecognized command <method>" of the first such request,
    whatever the fuel: nothing is recorded for load-based splitting, no
    latch is acquired and nothing executes (state and trace are as
    before). *)
Theorem executeBatchWithConcurrencyRetries_unrecognized
        {decl : SpanDeclarations}
        (fuel : nat) (ba : BatchRequest) (fn : batchExecutionFn S)
        (w : World S) (pre post : list Request) (inner : Request) :
  (forall ba, collectSpans r ba = Replica_collectSpans ba) ->
  Requests ba = pre ++ inner :: post ->
  (forall req, In req pre -> LookupCommand (Method req) <> None) ->
  LookupCommand (Method inner) = None ->
  executeBatchWithConcurrencyRetries r fuel ba fn w
  = Ret (None,
         Some {| GoError :=
                   errors_New
                     (String.append "unrecognized command " (Method inner));
                 Error_Index := None |})
        w.
Proof.
  intros Hcollect Hreqs Hpre Hinner.
  unfold executeBatchWithConcurrencyRetries.
  rewrite Hcollect. unfold Replica_collectSpans. cbv zeta. rewrite Hreqs.
  rewrite declareRequests_unrecognized; auto.
  apply Forall_forall. exact Hpre.
Qed.

End CleanupBalance.

Section Dispatch.

Context {S : Type} {helpers : Helpers} (r : Replica S).

Lemma respond_emits ba br pErr :
  emitsOnly (fun _ => true) (respond r ba br pErr).
Proof. unfold respond, log_Event. emits. Qed.

(** X18. The path [sendWithRangeID] takes.  When it returns, either the
    batch was refused before any path was chosen (by validation,
    backpressure, the stripping of in-flight writes or the request filter)
    and an error comes back with the trace untouched; or exactly one path
    was entered first, by priority: the read-write path for a batch that is
    not read-only and is a write, else the read-only path for a read-only
    batch, else the admin path, and this only for an admin batch. *)
Theorem sendWithRangeID_path
        (fuel : nat) (rangeID : RangeID) (ba : BatchRequest) (w : World S)
        (br : option BatchResponse) (pErr : option Error) (w' : World S) :
  sendWithRangeID r fuel rangeID ba w = Ret (br, pErr) w' ->
  (trace w' = trace w /\ br = None /\ pErr <> None)
  \/ exists ba' tr,
      maybeStripInFlightWrites ba = inl ba'
      /\ trace w'
         = trace w
           ++ Ev_log (if negb (IsReadOnly ba) && IsWrite ba
                      then "read-write path"
                      else if IsReadOnly ba then "read-only path"
                           else "admin path")
              :: tr
      /\ (IsReadOnly ba = false -> IsWrite ba = false -> IsAdmin ba' = true).
Proof.
  intros H. unfold sendWithRangeID in H.
  apply bind_Ret_inv in H as (u & w0 & Hstats & H).
  assert (Htr0 : trace w0 = trace w).
  { destruct (leaseholderStats_record r) as [record |].
    - destruct (negb (GatewayNodeID (BatchRequest_Header ba) =? 0)).
      + apply update_Ret_inv in Hstats as [_ Htr]. exact Htr.
      + apply ret_Ret_inv in Hstats as [_ <-]. reflexivity.
    - apply ret_Ret_inv in Hstats as [_ <-]. reflexivity. }
  apply bind_Ret_inv in H as (u' & w1 & Hinit & H).
  apply update_Ret_inv in Hinit as [_ Htr1].
  destruct (checkBatchRequest ba (IsReadOnly ba)) as [err |].
  { apply ret_Ret_inv in H as [Heq <-]. inversion Heq; subst.
    left. repeat split; [congruence | discriminate]. }
  apply bind_Ret_inv in H as (err & w2 & Hback & H).
  apply call_Ret_inv in Hback as [_ Htr2].
  destruct err as [err |].
  { apply ret_Ret_inv in H as [Heq <-]. inversion Heq; subst.
    left. repeat split; [congruence | discriminate]. }
  destruct (maybeStripInFlightWrites ba) as [ba' | err].
  2:{ apply ret_Ret_inv in H as [Heq <-]. inversion Heq; subst.
      left. repeat split; [congruence | discriminate]. }
  apply bind_Ret_inv in H as (fErr & w3 & Hfilter & H).
  assert (Htr3 : trace w3 = trace w2).
  { destruct (TestingRequestFilter (TestingKnobs r)) as [filter |].
    - apply call_Ret_inv in Hfilter as [_ Htr]. exact Htr.
    - apply ret_Ret_inv in Hfilter as [_ <-]. reflexivity. }
  destruct fErr as [e |].
  { apply ret_Ret_inv in H as [Heq <-]. inversion Heq; subst.
    left. repeat split; [congruence | discriminate]. }
  assert (Hstart : trace w3 = trace w) by congruence.
  apply bind_Ret_inv in H as ([br0 pErr0] & w4 & Hbranch & H).
  apply respond_emits in H as (tr2 & Htr5 & _).
  right. exists ba'.
  assert (Hentered :
            forall path (m : M S (option BatchResponse * option Error)),
              emitsOnly isInnerEvent m ->
              bind (log_Event path) (fun _ => m) w3 = Ret (br0, pErr0) w4 ->
              exists tr, trace w' = trace w ++ Ev_log path :: tr).
  { intros path m Hm Hrun.
    apply bind_Ret_inv in Hrun as (? & w5 & Hlog & Hrun).
    apply emit_Ret_inv in Hlog as [_ Hlog].
    apply Hm in Hrun as (tr1 & Htr4 & _).
    exists (tr1 ++ tr2).
    rewrite Htr5, Htr4, Hlog, Hstart, <- !app_assoc. reflexivity. }
  destruct (IsReadOnly ba), (IsWrite ba); simpl in *.
  - destruct (Hentered _ _ (executeBatchWithConcurrencyRetries_emits
                              r fuel ba' _) Hbranch) as [tr Htr].
    exists tr. repeat split; [assumption | discriminate].
  - destruct (Hentered _ _ (executeBatchWithConcurrencyRetries_emits
                              r fuel ba' _) Hbranch) as [tr Htr].
    exists tr. repeat split; [assumption | discriminate].
  - destruct (Hentered _ _ (executeBatchWithConcurrencyRetries_emits
                              r fuel ba' _) Hbranch) as [tr Htr].
    exists tr. repeat split; [assumption | discriminate].
  - destruct (IsAdmin ba') eqn:Hadmin.
    + destruct (Hentered _ _ (executeAdminBatch_emits r ba') Hbranch)
        as [tr Htr].
      exists tr. repeat split; assumption.
    + destruct (Nat.eqb (List.length (Requests ba')) 0);
        discriminate Hbranch.
Qed.

End Dispatch.

(* ------------------------------------------------------------------ *)
(** ** The rest of the code on concrete inputs *)

Module MoreRuns.

Import Scripted Scripted2.


Lemma limitTxnMaxTimestamp_idempotent_witness :
  let t' := {| Timed_Txn := txn1; ReadTimestamp := ts 10;
               MaxTimestamp := ts 15 |} in
  limitTxnMaxTimestamp 1 (Some t') (validLease 15) (start [])
  = Ret (Some t') (start []).
Proof.
  intros t'.
  exact (limitTxnMaxTimestamp_idempotent
           1 (Some timed1) (Some t') (validLease 15) (start []) (start [])
           eq_refl (start [])).
Defined.

(** Reading at 14 with the limit at 12: the event is logged and the window
    is empty. *)
Lemma limitTxnMaxTimestamp_no_uncertainty_witness :
  let t' := {| Timed_Txn := txn1; ReadTimestamp := ts 14;
               MaxTimestamp := ts 12 |} in
  hlc.Less (ReadTimestamp t') (MaxTimestamp t') = false.
Proof.
  intros t'.
  exact (proj1 (proj2 (limitTxnMaxTimestamp_no_uncertainty
                         1 timed2 t' (expiredLease 15) (ts 12) (start [])
                         {| ext := [];
                            trace := [Ev_log "read has no clock uncertainty"] |}
                         eq_refl eq_refl))
               eq_refl).
Defined.

(** A Scan between a Get and a Put. *)
Lemma collectSpans_first_unrecognized_witness :
  Replica_collectSpans (helpers := helpers) (decl := declarations)
    (batch None [get; OtherRequest "Scan"; put])
  = inr (errors_New "unrecognized command Scan").
Proof.
  apply (collectSpans_first_unrecognized
           (helpers := helpers) (decl := declarations)
           (batch None [get; OtherRequest "Scan"; put])
           [get] [put] (OtherRequest "Scan")).
  - reflexivity.
  - intros req [<- | []]. discriminate.
  - reflexivity.
Defined.

(** The empty batch is neither read-only, nor a write, nor admin. *)
Lemma sendWithRangeID_fatal_witness :
  sendWithRangeID (helpers := helpers) plain 1 21 (batch None []) (start [])
  = Stop (Fatal "empty batch")
  /\ exists ba',
      maybeStripInFlightWrites (Helpers := helpers) (batch None []) = inl ba'
      /\ Requests ba' = [].
Proof.
  split; [reflexivity |].
  destruct (sendWithRangeID_fatal
              (helpers := helpers) plain 1 21 (batch None []) (start [])
              "empty batch" eq_refl)
    as (ba' & Hstrip & [(_ & Hmsg & _) | (_ & _ & _ & [(Hreqs & _) | (_ & Hmsg)])]).
  - discriminate Hmsg.
  - exists ba'. split; assumption.
  - discriminate Hmsg.
Defined.

(** A split on the admin path, with range info asked for: the response
    holds the reply of AdminSplit with the range info attached. *)
Lemma executeAdminBatch_results_witness :
  let ba := {| BatchRequest_Header :=
                 {| Timestamp := ts 10;
                    Header_Replica := {| ReplicaDescriptor_NodeID := 1 |};
                    Txn := None;
                    ReadConsistency := CONSISTENT;
                    GatewayNodeID := 1;
                    ReturnRangeInfo := true |};
               Requests := [AdminSplitRequest] |} in
  let b := {| BatchResponse_Txn := None;
              Responses := [returnRangeInfo (emptyResponse "AdminSplit")] |} in
  executeAdminBatch plain ba (start [])
  = Ret (Some b, None)
        {| ext := []; trace := [Ev_redirectOnOrAcquireLease] |}
  /\ exists args command reply status s,
      Requests ba = [args]
      /\ adminCommand plain ba args = Some command
      /\ redirectOnOrAcquireLease plain (ext (start [])) = ((status, None), s)
      /\ checkExecutionCanProceed plain ba status s = None
      /\ command {| ext := s;
                    trace := trace (start [])
                             ++ [Ev_redirectOnOrAcquireLease] |}
         = Ret (reply, None)
               {| ext := []; trace := [Ev_redirectOnOrAcquireLease] |}
      /\ trace {| ext := @nil (option BatchResponse * option Error);
                  trace := [Ev_redirectOnOrAcquireLease] |}
         = trace (start []) ++ [Ev_redirectOnOrAcquireLease]
      /\ let resp := if ReturnRangeInfo (BatchRequest_Header ba)
                     then returnRangeInfo reply else reply in
         b = {| BatchResponse_Txn := Response_Txn resp; Responses := [resp] |}.
Proof.
  intros ba b. split; [reflexivity |].
  exact (proj2 (executeAdminBatch_results
                  plain ba (start []) (Some b) None
                  {| ext := []; trace := [Ev_redirectOnOrAcquireLease] |}
                  eq_refl)
               b eq_refl).
Defined.

(** A Put sent down the admin executor. *)
Lemma executeAdminBatch_unrecognized_witness :
  executeAdminBatch plain (batch None [put]) (start [])
  = Ret (None,
         Some {| GoError := errors_New "unrecognized admin command: %T";
                 Error_Index := None |})
        {| ext := []; trace := [Ev_redirectOnOrAcquireLease] |}.
Proof.
  apply (executeAdminBatch_unrecognized
           plain (batch None [put]) put (start []) (LeaseStatus_of 0) []).
  - reflexivity.
  - right. exists "Put". reflexivity.
  - reflexivity.
  - reflexivity.
Defined.

(** Batch at 10, node observed at 12: the push goes out at 12. *)
Lemma pushHeader_forwards_timestamp_witness :
  pushHeader (header (Some txn1) CONSISTENT)
  = Some {| Timestamp := ts 12;
            Header_Replica := {| ReplicaDescriptor_NodeID := 1 |};
            Txn := Some txn1;
            ReadConsistency := CONSISTENT;
            GatewayNodeID := 1;
            ReturnRangeInfo := false |}
  /\ hlc.Less (ts 12) (ts 10) = false.
Proof.
  split; [reflexivity |].
  exact (proj1 (pushHeader_forwards_timestamp
                  (header (Some txn1) CONSISTENT)
                  {| Timestamp := ts 12;
                     Header_Replica := {| ReplicaDescriptor_NodeID := 1 |};
                     Txn := Some txn1;
                     ReadConsistency := CONSISTENT;
                     GatewayNodeID := 1;
                     ReturnRangeInfo := false |}
                  eq_refl)).
Defined.

(** A second write-intent conflict, with closure 5 held from the first. *)
Lemma handleWriteIntentError_chains_cleanup_witness :
  trace {| ext := @nil (option BatchResponse * option Error);
           trace := [Ev_cleanup 5%nat (Some wiErr) None;
                     Ev_ProcessWriteIntentError (Some 1%nat)] |}
  = trace (start []) ++ [Ev_cleanup 5%nat (Some wiErr) None]
    ++ [Ev_ProcessWriteIntentError (Some 1%nat)].
Proof.
  exact (handleWriteIntentError_chains_cleanup
           (helpers := helpers) plain (batch (Some txn1) [put]) writeIntent
           wiErr (Some 5%nat) (start []) (Some 1%nat) None
           {| ext := [];
              trace := [Ev_cleanup 5%nat (Some wiErr) None;
                        Ev_ProcessWriteIntentError (Some 1%nat)] |}
           eq_refl).
Defined.

Lemma answering_answers (ba : BatchRequest) (spans : SpanSet) (lg : Guard)
      (s : Script) :
  fst (fst (answering ba spans lg s)) <> None
  \/ snd (fst (answering ba spans lg s)) <> None.
Proof.
  destruct s as [| [[b |] [e |]] s']; simpl;
    first [left; discriminate | right; discriminate].
Defined.

(** A write that meets a lease error. *)
Lemma executeBatchWithConcurrencyRetries_response_or_error_witness :
  executeBatchWithConcurrencyRetries (helpers := helpers) plain 1
    (batch None [put]) answering (start [(None, Some notLeaseHolder)])
  = Ret (None, Some notLeaseHolder) (start [])
  /\ ((@None BatchResponse = None /\ Some notLeaseHolder <> None)
      \/ (@None BatchResponse <> None /\ Some notLeaseHolder = None)).
Proof.
  split; [reflexivity |].
  apply (executeBatchWithConcurrencyRetries_response_or_error
           (helpers := helpers) plain 1 (batch None [put]) answering
           (start [(None, Some notLeaseHolder)]) None (Some notLeaseHolder)
           (start [])).
  - intros ba s. left. reflexivity.
  - exact answering_answers.
  - reflexivity.
Defined.

Lemma sendWithRangeID_response_or_error_witness :
  Some (okResponse None) <> None \/ @None Error <> None.
Proof.
  exact (proj1 (sendWithRangeID_response_or_error
                  (helpers := helpers) answeringReplica 1 21
                  (batch None [get]) (start []) (Some (okResponse None)) None
                  {| ext := []; trace := [Ev_log "read-only path"] |}
                  (fun ba s => or_introl eq_refl)
                  answering_answers answering_answers eq_refl)).
Defined.

(** A write with one resolved write-intent conflict, through the
    dispatcher. *)
Lemma sendWithRangeID_cleanup_balance_witness :
  let w' := {| ext := @nil (option BatchResponse * option Error);
               trace := [Ev_log "read-write path";
                         Ev_ProcessWriteIntentError (Some 1%nat);
                         Ev_cleanup 1%nat None (Some meta1)] |} in
  sendWithRangeID (helpers := helpers) plain 2 21 (batch (Some txn1) [put])
                  (start [(None, Some writeIntent)])
  = Ret (Some (okResponse (Some txn1)), None) w'
  /\ (released (trace w') + acquired []
      = acquired (trace w') + released [])%nat.
Proof.
  intros w'. split; [reflexivity |].
  exact (sendWithRangeID_cleanup_balance
           (helpers := helpers) plain 2 21 (batch (Some txn1) [put])
           (start [(None, Some writeIntent)])
           (Some (okResponse (Some txn1)), None) w' eq_refl).
Defined.

Lemma executeBatchWithConcurrencyRetries_unrecognized_witness :
  executeBatchWithConcurrencyRetries (helpers := helpers) collecting 0
    (batch None [get; OtherRequest "Scan"]) executor (start [])
  = Ret (None,
         Some {| GoError := errors_New "unrecognized command Scan";
                 Error_Index := None |})
        (start []).
Proof.
  apply (executeBatchWithConcurrencyRetries_unrecognized
           (helpers := helpers) collecting (decl := declarations) 0
           (batch None [get; OtherRequest "Scan"]) executor (start [])
           [get] [] (OtherRequest "Scan")).
  - intros ba. reflexivity.
  - reflexivity.
  - intros req [<- | []]. discriminate.
  - reflexivity.
Defined.

(** A Get goes down the read-only path. *)
Lemma sendWithRangeID_path_witness :
  exists ba' tr,
    maybeStripInFlightWrites (Helpers := helpers) (batch None [get])
    = inl ba'
    /\ [Ev_log "read-only path"] = [] ++ Ev_log "read-only path" :: tr.
Proof.
  destruct (sendWithRangeID_path
              (helpers := helpers) plain 1 21 (batch None [get]) (start [])
              (Some (okResponse None)) None
              {| ext := []; trace := [Ev_log "read-only path"] |} eq_refl)
    as [(_ & Hbr & _) | (ba' & tr & Hstrip & Htr & _)].
  - discriminate Hbr.
  - exists ba', tr. split; assumption.
Defined.

End MoreRuns.
